(** * Catalogue microservice: request handlers and Mongo connection supervisor

    A shallow embedding of [catalogue/src/app.js] (class
    [CatalogueServiceApp]) and of the second copy of that class kept in
    the repository, which differs in how the handlers report failures.

    Layout:
    - data model: products, driver errors, settled promises, the
      collection interface the handlers call ([find], [sort], [toArray],
      [findOne], [distinct]);
    - a small monad for one request: it threads the Express response
      object, the request logger, the trace of store calls and pending
      timers, and it has JavaScript exceptions ([throw], [try ... catch]);
    - the seven route handlers, once per source variant;
    - the constructor, [mongoConnect] and [startMongoLoop] as a
      deterministic step function over the process state, the outcome of
      each [MongoClient.connect] call being supplied from outside;
    - theorems. *)

From Stdlib Require Import String Ascii List ZArith Bool Lia.
From Stdlib Require Import Sorting.Sorted Sorting.Permutation.
Import ListNotations.

Local Open Scope string_scope.
Local Open Scope list_scope.
Local Open Scope Z_scope.

(** ** Data model *)

(** A document of the [products] collection.  [details] stands for the
    descriptive fields the service passes through untouched. *)
Record Product := {
  sku        : string;
  name       : string;
  categories : list string;
  details    : list (string * string)
}.

(** Values caught by a [catch (e)].  [MongoError] is whatever the driver
    throws or rejects with; [TypeError] is what reading a property of
    [undefined] raises; [HeadersSent] is Node's error for a second
    [res.send]. *)
Inductive JsError :=
| MongoError (message : string)
| TypeError (message : string)
| HeadersSent.

(** A promise once it has settled. *)
Inductive Settled (A : Type) :=
| Resolved (a : A)
| Rejected (e : JsError).
Arguments Resolved {A} a.
Arguments Rejected {A} e.

(** The query documents the handlers build. *)
Inductive Filter :=
| FilterAll                          (* {} *)
| FilterSku (s : string)             (* { sku: s } *)
| FilterCategories (cat : string)    (* { categories: cat } *)
| FilterText (search : string).      (* { $text: { $search: search } } *)

(** A cursor: the query document and the sort specification given so
    far; nothing is sent to the store before [toArray]. *)
Record Cursor := {
  cursor_filter : Filter;
  cursor_sort   : list (string * Z)
}.

Definition find (f : Filter) : Cursor :=
  {| cursor_filter := f; cursor_sort := [] |}.

Definition sort (spec : list (string * Z)) (c : Cursor) : Cursor :=
  {| cursor_filter := cursor_filter c; cursor_sort := spec |}.

(** What [this.collection] answers.  The service treats it as a duck-typed
    object (the tests inject a mock), so it is a record of functions. *)
Record Collection := {
  toArray  : Cursor -> Settled (list Product);
  findOne  : Filter -> Settled (option Product);
  distinct : string -> Settled (list string)
}.

(** Store operations a handler has invoked, in order. *)
Inductive StoreCall :=
| CallFind (f : Filter)
| CallSort (spec : list (string * Z))
| CallToArray
| CallFindOne (f : Filter)
| CallDistinct (field : string).

(** ** The Express response and the request logger *)

Inductive Body :=
| Text (s : string)                          (* res.send('...') *)
| JsonHealth (app_ : string) (mongo : bool)  (* res.json({app, mongo}) *)
| JsonProducts (l : list Product)
| JsonProduct (p : Product)
| JsonStrings (l : list string)
| JsonError (e : JsError).                   (* res.send(e), e an object *)

Record Response := {
  status : Z;
  body   : Body
}.

(** The response object as the application's code drives it.  [headers]
    records the application's own [res.set] calls; the headers Express
    and [res.send] / [res.json] add by themselves are not modelled. *)
Record Res := {
  statusCode : Z;
  headers    : list (string * string);
  sent       : option Response
}.

Inductive Level := LInfo | LWarn | LError.

(** A log call as the code makes it: the level of the method called,
    the [statusCode], [err] and other fields of the merging object, and
    the message argument as passed (not the line the logger renders). *)
Record LogEntry := {
  log_level  : Level;
  log_status : option Z;
  log_err    : option JsError;
  log_fields : list (string * string);
  log_msg    : string
}.

(** Closures handed to [setTimeout] by a handler. *)
Inductive Callback :=
| LookupProduct (s : string).

(** Everything the application's code has done for one request so far.
    [req_log] holds the log calls the handlers make through [req.log];
    the completion line that the express-pino-logger middleware writes
    by itself is not among them. *)
Record Task := {
  res         : Res;
  req_log     : list LogEntry;
  store_calls : list StoreCall;
  timers      : list (Z * Callback)
}.

Definition fresh_task : Task :=
  {| res := {| statusCode := 200; headers := []; sent := None |};
     req_log := []; store_calls := []; timers := [] |}.

(** ** A monad for handler bodies: state that survives exceptions *)

Inductive Completion (A : Type) :=
| Normal (a : A)
| Throw (e : JsError).
Arguments Normal {A} a.
Arguments Throw {A} e.

Definition M (A : Type) : Type := Task -> Completion A * Task.

Definition ret {A} (a : A) : M A := fun t => (Normal a, t).

Definition bind {A B} (c : M A) (k : A -> M B) : M B :=
  fun t =>
    match c t with
    | (Normal a, t') => k a t'
    | (Throw e, t') => (Throw e, t')
    end.

Definition throw {A} (e : JsError) : M A := fun t => (Throw e, t).

Definition try_catch {A} (c : M A) (handler : JsError -> M A) : M A :=
  fun t =>
    match c t with
    | (Normal a, t') => (Normal a, t')
    | (Throw e, t') => handler e t'
    end.

Declare Scope js_scope.
Delimit Scope js_scope with js.
Notation "x <- c ;; k" := (bind c (fun x => k))
  (at level 61, c at next level, right associativity) : js_scope.
Notation "c ;; k" := (bind c (fun _ => k))
  (at level 61, right associativity) : js_scope.
Local Open Scope js_scope.

Definition modify (f : Task -> Task) : M unit := fun t => (Normal tt, f t).

Definition with_res (f : Res -> Res) (t : Task) : Task :=
  {| res := f (res t); req_log := req_log t;
     store_calls := store_calls t; timers := timers t |}.

(** [res.set(k, v)] *)
Definition res_set (k v : string) : M unit :=
  modify (with_res (fun r =>
    {| statusCode := statusCode r; headers := headers r ++ [(k, v)];
       sent := sent r |})).

(** [res.status(n)] *)
Definition res_status (n : Z) : M unit :=
  modify (with_res (fun r =>
    {| statusCode := n; headers := headers r; sent := sent r |})).

(** The response leaves with the status code held at that moment; a
    second write raises. *)
Definition res_end (b : Body) : M unit :=
  fun t =>
    match sent (res t) with
    | Some _ => (Throw HeadersSent, t)
    | None =>
        (Normal tt,
         with_res (fun r =>
           {| statusCode := statusCode r; headers := headers r;
              sent := Some {| status := statusCode r; body := b |} |}) t)
    end.

(** [res.send(s)] with a string, [res.json(v)], and [res.send(e)] with a
    caught error object (Express hands objects to [res.json]). *)
Definition res_send (s : string) : M unit := res_end (Text s).
Definition res_json (b : Body) : M unit := res_end b.
Definition res_send_error (e : JsError) : M unit := res_end (JsonError e).

Definition emit (e : LogEntry) : M unit :=
  modify (fun t =>
    {| res := res t; req_log := req_log t ++ [e];
       store_calls := store_calls t; timers := timers t |}).

Definition called (c : StoreCall) : M unit :=
  modify (fun t =>
    {| res := res t; req_log := req_log t;
       store_calls := store_calls t ++ [c]; timers := timers t |}).

(** [setTimeout(cb, delay)] *)
Definition setTimeout (cb : Callback) (delay : Z) : M unit :=
  modify (fun t =>
    {| res := res t; req_log := req_log t;
       store_calls := store_calls t; timers := timers t ++ [(delay, cb)] |}).

(** [await p] *)
Definition await {A} (p : Settled A) : M A :=
  match p with
  | Resolved a => ret a
  | Rejected e => throw e
  end.

Definition current_status : M Z := fun t => (Normal (statusCode (res t)), t).

(** ** The application object *)

(** The fields of [this] the handlers and the supervisor read or write.
    [collection] and [db] are [undefined] until assigned. *)
Record App := {
  mongoConnected : bool;
  mongoHost      : option string;
  mongoUrl       : string;
  db             : option string;
  collection     : option Collection
}.

(** [this.collection.<op>]: reading a property of [undefined] raises. *)
Definition this_collection (this : App) : M Collection :=
  match collection this with
  | Some c => ret c
  | None => throw (TypeError "Cannot read properties of undefined")
  end.

(** [this.collection.find(f)], [.sort(spec)] and [await ... .toArray()],
    each leaving its mark in the trace. *)
Definition collection_find (this : App) (f : Filter) : M (Collection * Cursor) :=
  c <- this_collection this ;;
  called (CallFind f) ;;
  ret (c, find f).

Definition cursor_sorted (spec : list (string * Z)) (cc : Collection * Cursor)
  : M (Collection * Cursor) :=
  called (CallSort spec) ;;
  ret (fst cc, sort spec (snd cc)).

Definition cursor_toArray (cc : Collection * Cursor) : M (list Product) :=
  called CallToArray ;;
  await (toArray (fst cc) (snd cc)).

Definition collection_findOne (this : App) (f : Filter) : M (option Product) :=
  c <- this_collection this ;;
  called (CallFindOne f) ;;
  await (findOne c f).

Definition collection_distinct (this : App) (field : string) : M (list string) :=
  c <- this_collection this ;;
  called (CallDistinct field) ;;
  await (distinct c field).

(** The routes registered by [setupRoutes], with their path parameters. *)
Inductive Route :=
| Health                              (* /health *)
| Products                            (* /products *)
| ProductBySku (s : string)           (* /product/:sku *)
| ProductsByCategory (cat : string)   (* /products/:cat *)
| Categories                          (* /categories *)
| Search                              (* /search *)
| SearchText (text : string).         (* /search/:text *)

(** The last middleware of [setupMiddleware], the only one written in
    the repository.  The logger middleware and the body parsers
    installed before it are library code: what they do by themselves
    (the automatic completion log line, parsing) is not modelled. *)
Definition setupMiddleware : M unit :=
  res_set "Timing-Allow-Origin" "*" ;;
  res_set "Access-Control-Allow-Origin" "*".

(** [GET /health], the same in both variants. *)
Definition get_health (this : App) : M unit :=
  res_json (JsonHealth "OK" (mongoConnected this)).

(** ** Handlers of [catalogue/src/app.js] *)

Module AppJs.

Definition logWarn (details : list (string * string)) : M unit :=
  sc <- current_status ;;
  emit {| log_level := LWarn; log_status := Some sc; log_err := None;
          log_fields := details; log_msg := EmptyString |}.

Definition logError (error : option JsError) (details : list (string * string))
  : M unit :=
  sc <- current_status ;;
  emit {| log_level := LError; log_status := Some sc; log_err := error;
          log_fields := details; log_msg := EmptyString |}.

(** The block every gated handler opens with when
    [!this.mongoConnected]. *)
Definition unavailable : M unit :=
  res_status 500 ;;
  res_send "database not available" ;;
  logError None [("error_type", "DEPENDENCY_DOWN"); ("dependency", "mongodb")].

(** The [catch (e)] blocks: they differ in the [error_type] tag only. *)
Definition internal_error (tag : string) (e : JsError) : M unit :=
  res_status 500 ;;
  res_send "internal error" ;;
  logError (Some e) [("error_type", tag)].

Definition get_products (this : App) : M unit :=
  if negb (mongoConnected this) then unavailable
  else
    try_catch
      (cur <- collection_find this FilterAll ;;
       products <- cursor_toArray cur ;;
       res_json (JsonProducts products))
      (internal_error "FETCH_PRODUCTS_FAILED").

(** The async arrow function given to [setTimeout] in [/product/:sku]. *)
Definition lookup_product (this : App) (s : string) : M unit :=
  product <- collection_findOne this (FilterSku s) ;;
  match product with
  | None =>
      res_status 404 ;;
      res_send "SKU not found" ;;
      logWarn [("error_type", "SKU_NOT_FOUND"); ("sku", s)]
  | Some p => res_json (JsonProduct p)
  end.

Definition get_product (this : App) (s : string) : M unit :=
  if negb (mongoConnected this) then unavailable
  else
    try_catch
      (let delay := 0 in setTimeout (LookupProduct s) delay)
      (internal_error "FETCH_PRODUCT_FAILED").

Definition get_products_cat (this : App) (cat : string) : M unit :=
  if negb (mongoConnected this) then unavailable
  else
    try_catch
      (cur <- collection_find this (FilterCategories cat) ;;
       cur <- cursor_sorted [("name", 1)] cur ;;
       products <- cursor_toArray cur ;;
       if (Z.of_nat (length products) =? 0)
       then
         res_status 404 ;;
         res_send (String.append "No products for " cat) ;;
         logWarn [("error_type", "CATEGORY_EMPTY"); ("category", cat)]
       else res_json (JsonProducts products))
      (internal_error "FETCH_CATEGORY_FAILED").

Definition get_categories (this : App) : M unit :=
  if negb (mongoConnected this) then unavailable
  else
    try_catch
      (cats <- collection_distinct this "categories" ;;
       res_json (JsonStrings cats))
      (internal_error "FETCH_CATEGORIES_FAILED").

Definition get_search (this : App) : M unit :=
  if negb (mongoConnected this) then unavailable
  else
    try_catch
      (cur <- collection_find this FilterAll ;;
       products <- cursor_toArray cur ;;
       res_json (JsonProducts products))
      (internal_error "SEARCH_FAILED").

Definition get_search_text (this : App) (text : string) : M unit :=
  if negb (mongoConnected this) then unavailable
  else
    try_catch
      (cur <- collection_find this (FilterText text) ;;
       hits <- cursor_toArray cur ;;
       res_json (JsonProducts hits))
      (internal_error "SEARCH_FAILED").

Definition handle (this : App) (r : Route) : M unit :=
  match r with
  | Health => get_health this
  | Products => get_products this
  | ProductBySku s => get_product this s
  | ProductsByCategory cat => get_products_cat this cat
  | Categories => get_categories this
  | Search => get_search this
  | SearchText text => get_search_text this text
  end.

End AppJs.

(** ** Handlers of the second variant (the unnamed copy of the class) *)

Module Part000.

(** [return res.status(500).send('database not available')] *)
Definition unavailable : M unit :=
  res_status 500 ;;
  res_send "database not available".

(** [req.log.error('ERROR', e); res.status(500).send(e);]  The logger is
    given the message ['ERROR'] and [e] as a value to interpolate into a
    message that has no placeholder: the entry has no merging object,
    hence no [err]. *)
Definition report (e : JsError) : M unit :=
  emit {| log_level := LError; log_status := None; log_err := None;
          log_fields := []; log_msg := "ERROR" |} ;;
  res_status 500 ;;
  res_send_error e.

Definition get_products (this : App) : M unit :=
  if negb (mongoConnected this) then unavailable
  else
    try_catch
      (cur <- collection_find this FilterAll ;;
       products <- cursor_toArray cur ;;
       res_json (JsonProducts products))
      report.

Definition lookup_product (this : App) (s : string) : M unit :=
  product <- collection_findOne this (FilterSku s) ;;
  match product with
  | Some p => res_json (JsonProduct p)
  | None => res_status 404 ;; res_send "SKU not found"
  end.

Definition get_product (this : App) (s : string) : M unit :=
  if negb (mongoConnected this) then unavailable
  else
    try_catch
      (let delay := 0 in setTimeout (LookupProduct s) delay)
      report.

Definition get_products_cat (this : App) (cat : string) : M unit :=
  if negb (mongoConnected this) then unavailable
  else
    try_catch
      (cur <- collection_find this (FilterCategories cat) ;;
       cur <- cursor_sorted [("name", 1)] cur ;;
       products <- cursor_toArray cur ;;
       if (Z.of_nat (length products) >? 0)
       then res_json (JsonProducts products)
       else
         res_status 404 ;;
         res_send (String.append "No products for " cat))
      report.

Definition get_categories (this : App) : M unit :=
  if negb (mongoConnected this) then unavailable
  else
    try_catch
      (cats <- collection_distinct this "categories" ;;
       res_json (JsonStrings cats))
      report.

Definition get_search (this : App) : M unit :=
  if negb (mongoConnected this) then unavailable
  else
    try_catch
      (cur <- collection_find this FilterAll ;;
       products <- cursor_toArray cur ;;
       res_json (JsonProducts products))
      report.

Definition get_search_text (this : App) (text : string) : M unit :=
  if negb (mongoConnected this) then unavailable
  else
    try_catch
      (cur <- collection_find this (FilterText text) ;;
       hits <- cursor_toArray cur ;;
       res_json (JsonProducts hits))
      report.

Definition handle (this : App) (r : Route) : M unit :=
  match r with
  | Health => get_health this
  | Products => get_products this
  | ProductBySku s => get_product this s
  | ProductsByCategory cat => get_products_cat this cat
  | Categories => get_categories this
  | Search => get_search this
  | SearchText text => get_search_text this text
  end.

End Part000.

(** ** Serving one request *)

Inductive SourceVariant := app_js | part_000.

Definition handle (v : SourceVariant) : App -> Route -> M unit :=
  match v with
  | app_js => AppJs.handle
  | part_000 => Part000.handle
  end.

Definition run_callback (v : SourceVariant) (this : App) (cb : Callback) : M unit :=
  match cb with
  | LookupProduct s =>
      match v with
      | app_js => AppJs.lookup_product this s
      | part_000 => Part000.lookup_product this s
      end
  end.

(** What a request leaves behind: the final task state, and the errors
    that escaped every [catch] (a rejected async handler or timer
    callback: nobody answers the client for those). *)
Record Served := {
  final     : Task;
  unhandled : list JsError
}.

Definition escaped {A} (c : Completion A) : list JsError :=
  match c with
  | Normal _ => []
  | Throw e => [e]
  end.

(** A timer fires: its callback runs as a task of its own, outside the
    [try] of the handler that scheduled it. *)
Definition fire (v : SourceVariant) (this : App) (acc : Served) (tm : Z * Callback)
  : Served :=
  let r := run_callback v this (snd tm) (final acc) in
  {| final := snd r; unhandled := unhandled acc ++ escaped (fst r) |}.

Definition clear_timers (t : Task) : Task :=
  {| res := res t; req_log := req_log t; store_calls := store_calls t;
     timers := [] |}.

(** Middleware, then the route handler, then the timers it scheduled. *)
Definition serve (v : SourceVariant) (this : App) (r : Route) : Served :=
  let h := (setupMiddleware ;; handle v this r) fresh_task in
  fold_left (fire v this) (timers (snd h))
            {| final := clear_timers (snd h); unhandled := escaped (fst h) |}.

Definition response (s : Served) : option Response := sent (res (final s)).

Definition status_of (s : Served) : option Z :=
  match response s with
  | Some r => Some (status r)
  | None => None
  end.

Definition queries (s : Served) : list StoreCall := store_calls (final s).

(** ** An in-memory products collection *)

(** Modelled from the spec: the document store behind [this.collection]
    (the MongoDB driver and server) is not part of the repository.
    Section 4.2 of the specification fixes what the handlers' queries
    mean: [{}] is a full scan, [{sku: s}] an exact match on [sku],
    [{categories: c}] keeps the documents whose [categories] array
    contains [c], [sort({name: 1})] orders by [name] ascending,
    [distinct('categories')] lists each category once.  The text index
    is opaque: [text_match] says which documents a search hits.  The
    definitions from here to [memCollection] build that store. *)
Definition has_category (cat : string) (p : Product) : bool :=
  existsb (String.eqb cat) (categories p).

Definition matches (text_match : string -> Product -> bool) (f : Filter)
  (p : Product) : bool :=
  match f with
  | FilterAll => true
  | FilterSku s => String.eqb (sku p) s
  | FilterCategories cat => has_category cat p
  | FilterText search => text_match search p
  end.

Definition name_leb (p q : Product) : bool := String.leb (name p) (name q).

Fixpoint insert_by_name (p : Product) (l : list Product) : list Product :=
  match l with
  | [] => [p]
  | q :: l' => if name_leb p q then p :: q :: l' else q :: insert_by_name p l'
  end.

Fixpoint sort_by_name (l : list Product) : list Product :=
  match l with
  | [] => []
  | p :: l' => insert_by_name p (sort_by_name l')
  end.

(** Only [{name: 1}] is ever requested; any other specification leaves
    the natural order. *)
Definition apply_sort (spec : list (string * Z)) (l : list Product) : list Product :=
  match spec with
  | [(field, dir)] =>
      if (String.eqb field "name" && (dir =? 1))%bool then sort_by_name l else l
  | _ => l
  end.

Definition field_values (field : string) (p : Product) : list string :=
  if String.eqb field "categories" then categories p
  else if String.eqb field "sku" then [sku p]
  else if String.eqb field "name" then [name p]
  else [].

(** Modelled from the spec: the external store of section 4.2, holding
    [docs]; every operation succeeds. *)
Definition memCollection (text_match : string -> Product -> bool)
  (docs : list Product) : Collection :=
  {| toArray := fun c =>
       Resolved (apply_sort (cursor_sort c)
                   (filter (matches text_match (cursor_filter c)) docs));
     findOne := fun f => Resolved (List.find (matches text_match f) docs);
     distinct := fun field =>
       Resolved (nodup string_dec (flat_map (field_values field) docs)) |}.

(** A collection whose every operation fails with [e]: the store has
    become unreachable after the connection was made. *)
Definition failingCollection (e : JsError) : Collection :=
  {| toArray := fun _ => Rejected e;
     findOne := fun _ => Rejected e;
     distinct := fun _ => Rejected e |}.

(** The fixture of [tests/app.test.js]. *)
Definition product1 : Product :=
  {| sku := "sku1"; name := "Product1"; categories := ["cat1"]; details := [] |}.
Definition product2 : Product :=
  {| sku := "sku2"; name := "Product2"; categories := ["cat2"]; details := [] |}.
Definition fixture : list Product := [product1; product2].

Definition no_text_index (_ : string) (_ : Product) : bool := false.

(** An application object bound to the collection [c], as the
    constructor leaves it when [mockCollections] is given. *)
Definition bound (c : Collection) : App :=
  {| mongoConnected := true; mongoHost := None;
     mongoUrl := "mongodb://undefined:27017/catalogue";
     db := None; collection := Some c |}.

Definition unbound : App :=
  {| mongoConnected := false; mongoHost := None;
     mongoUrl := "mongodb://undefined:27017/catalogue";
     db := None; collection := None |}.

(** ** The constructor and the connection supervisor

    [constructor], [mongoConnect] and [startMongoLoop] write the fields
    of [this] one assignment at a time; the process below executes them
    one statement per step, so that every program point is a state.
    Between two tasks ([running] empty) the event loop resumes what is
    pending: a settled [MongoClient.connect] promise or a due timer. *)

(** The [mockCollections] option.  The constructor reads its [products]
    property without checking it, so the property may be [undefined]. *)
Record MockCollections := {
  products : option Collection
}.

Record Options := {
  opt_mongoHost       : option string;
  opt_mockCollections : option MockCollections
}.

(** How one call of [MongoClient.connect] ends: with a client, of which
    the code keeps [client.db('catalogue').collection('products')], or
    with a rejection. *)
Inductive ConnectOutcome :=
| Connected (c : Collection)
| Refused (e : JsError).

Inductive Stmt :=
| SetMongoConnected (b : bool)     (* this.mongoConnected = b *)
| SetMongoHost (h : option string) (* this.mongoHost = mongoHost *)
| SetMongoUrl                      (* this.mongoUrl = 'mongodb://' + ... *)
| SetDb (dbname : string)          (* this.db = client.db(dbname) *)
| SetCollection (c : option Collection) (* this.collection = ... *)
| LoggerInfo (msg : string)        (* this.logger.info(msg) *)
| LoggerError (e : JsError)        (* this.logger.error(...) in the catch *)
| SetTimeout (delay : Z)           (* setTimeout(tryConnect, delay) *)
| CallTryConnect.                  (* tryConnect(), up to its await *)

Inductive Pending :=
| ConnectPromise (call : nat)      (* the call-th MongoClient.connect, awaited *)
| Timeout (delay : Z).             (* a timer that will call tryConnect *)

Record Process := {
  this     : App;
  logger   : list LogEntry;
  running  : list Stmt;
  pending  : list Pending;
  connects : nat;                  (* calls of MongoClient.connect so far *)
  waited   : Z                     (* milliseconds spent in timers *)
}.

(** String concatenation with a possibly undefined operand. *)
Definition js_string (h : option string) : string :=
  match h with
  | Some s => s
  | None => "undefined"
  end.

Definition connection_error_entry (v : SourceVariant) (e : JsError) : LogEntry :=
  match v with
  | app_js =>     (* this.logger.error({ err: e }, 'MongoDB connection failed') *)
      {| log_level := LError; log_status := None; log_err := Some e;
         log_fields := []; log_msg := "MongoDB connection failed" |}
  | part_000 =>   (* this.logger.error('ERROR', e): e is only a value to
                     interpolate, the entry has no merging object *)
      {| log_level := LError; log_status := None; log_err := None;
         log_fields := []; log_msg := "ERROR" |}
  end.

Definition info_entry (msg : string) : LogEntry :=
  {| log_level := LInfo; log_status := None; log_err := None;
     log_fields := []; log_msg := msg |}.

Definition with_this (f : App -> App) (p : Process) : Process :=
  {| this := f (this p); logger := logger p; running := running p;
     pending := pending p; connects := connects p; waited := waited p |}.

Definition exec_stmt (v : SourceVariant) (s : Stmt) (p : Process) : Process :=
  match s with
  | SetMongoConnected b =>
      with_this (fun a =>
        {| mongoConnected := b; mongoHost := mongoHost a;
           mongoUrl := mongoUrl a; db := db a; collection := collection a |}) p
  | SetMongoHost h =>
      with_this (fun a =>
        {| mongoConnected := mongoConnected a; mongoHost := h;
           mongoUrl := mongoUrl a; db := db a; collection := collection a |}) p
  | SetMongoUrl =>
      with_this (fun a =>
        {| mongoConnected := mongoConnected a; mongoHost := mongoHost a;
           mongoUrl := String.append "mongodb://"
                         (String.append (js_string (mongoHost a))
                                        ":27017/catalogue");
           db := db a; collection := collection a |}) p
  | SetDb dbname =>
      with_this (fun a =>
        {| mongoConnected := mongoConnected a; mongoHost := mongoHost a;
           mongoUrl := mongoUrl a; db := Some dbname;
           collection := collection a |}) p
  | SetCollection c =>
      with_this (fun a =>
        {| mongoConnected := mongoConnected a; mongoHost := mongoHost a;
           mongoUrl := mongoUrl a; db := db a; collection := c |}) p
  | LoggerInfo msg =>
      {| this := this p; logger := logger p ++ [info_entry msg];
         running := running p; pending := pending p;
         connects := connects p; waited := waited p |}
  | LoggerError e =>
      {| this := this p; logger := logger p ++ [connection_error_entry v e];
         running := running p; pending := pending p;
         connects := connects p; waited := waited p |}
  | SetTimeout delay =>
      {| this := this p; logger := logger p; running := running p;
         pending := pending p ++ [Timeout delay];
         connects := connects p; waited := waited p |}
  | CallTryConnect =>
      {| this := this p; logger := logger p; running := running p;
         pending := pending p ++ [ConnectPromise (connects p)];
         connects := S (connects p); waited := waited p |}
  end.

(** [mongoConnect] after [await MongoClient.connect(this.mongoUrl)]. *)
Definition mongoConnect (c : Collection) : list Stmt :=
  [ SetDb "catalogue";
    SetCollection (Some c);
    SetMongoConnected true;
    LoggerInfo "MongoDB connected" ].

(** [tryConnect] once the promise of [mongoConnect] has settled: the
    rest of the [try] block is empty, the [catch] logs and re-arms. *)
Definition tryConnect_resume (o : ConnectOutcome) : list Stmt :=
  match o with
  | Connected c => mongoConnect c
  | Refused e => [ LoggerError e; SetTimeout 2000 ]
  end.

Definition startMongoLoop : list Stmt := [ CallTryConnect ].

(** The constructor's writes to [this]; creating the logger, the Express
    application, the middleware and the routes changes none of the
    fields modelled here. *)
Definition constructor_body (opts : Options) : list Stmt :=
  [ SetMongoConnected false;
    SetMongoHost (opt_mongoHost opts);
    SetMongoUrl ]
  ++ match opt_mockCollections opts with
     | None => startMongoLoop
     | Some mocks => [ SetCollection (products mocks); SetMongoConnected true ]
     end.

(** [new CatalogueServiceApp(opts)] about to run; no field is defined
    yet ([undefined] is falsy). *)
Definition new (opts : Options) : Process :=
  {| this := {| mongoConnected := false; mongoHost := None; mongoUrl := EmptyString;
                db := None; collection := None |};
     logger := []; running := constructor_body opts; pending := [];
     connects := 0; waited := 0 |}.

Definition step (v : SourceVariant) (mongo : nat -> ConnectOutcome) (p : Process)
  : option Process :=
  match running p with
  | s :: rest =>
      Some (exec_stmt v s
              {| this := this p; logger := logger p; running := rest;
                 pending := pending p; connects := connects p;
                 waited := waited p |})
  | [] =>
      match pending p with
      | [] => None
      | ConnectPromise call :: more =>
          Some {| this := this p; logger := logger p;
                  running := tryConnect_resume (mongo call);
                  pending := more; connects := connects p;
                  waited := waited p |}
      | Timeout delay :: more =>
          Some {| this := this p; logger := logger p;
                  running := [ CallTryConnect ];
                  pending := more; connects := connects p;
                  waited := waited p + delay |}
      end
  end.

Fixpoint run (fuel : nat) (v : SourceVariant) (mongo : nat -> ConnectOutcome)
  (p : Process) : Process :=
  match fuel with
  | O => p
  | S fuel' =>
      match step v mongo p with
      | None => p
      | Some p' => run fuel' v mongo p'
      end
  end.

(** [Reaches v mongo p q]: the process gets from [p] to [q]. *)
Inductive Reaches (v : SourceVariant) (mongo : nat -> ConnectOutcome)
  : Process -> Process -> Prop :=
| reaches_here : forall p, Reaches v mongo p p
| reaches_next : forall p q q',
    Reaches v mongo p q -> step v mongo q = Some q' -> Reaches v mongo p q'.

(** The whole constructor, run to its end: what [new ...] returns. *)
Definition constructor (v : SourceVariant) (opts : Options) : Process :=
  fold_left (fun p s => exec_stmt v s p) (constructor_body opts)
    {| this := this (new opts); logger := []; running := []; pending := [];
       connects := 0; waited := 0 |}.

(** ** Fixtures and environments used in examples *)

Definition connection_lost : JsError := MongoError "connection closed".

(** The mock of [tests/app.test.js]: [find] returns every product
    whatever the filter and [sort] returns the same cursor. *)
Definition mockProductsCollection : Collection :=
  {| toArray := fun _ => Resolved fixture;
     findOne := fun f =>
       match f with
       | FilterSku s => Resolved (List.find (fun p => String.eqb (sku p) s) fixture)
       | _ => Resolved None
       end;
     distinct := fun _ => Resolved ["cat1"; "cat2"] |}.

Definition test_options : Options :=
  {| opt_mongoHost := None;
     opt_mockCollections := Some {| products := Some mockProductsCollection |} |}.

(** [new CatalogueServiceApp({ mockCollections: {} })]: mocks without a
    [products] entry. *)
Definition empty_mocks_options : Options :=
  {| opt_mongoHost := None;
     opt_mockCollections := Some {| products := None |} |}.

(** [server.js]: [new CatalogueServiceApp({ mongoHost })]. *)
Definition server_options : Options :=
  {| opt_mongoHost := Some "mongodb"; opt_mockCollections := None |}.

Definition never_connects (_ : nat) : ConnectOutcome := Refused connection_lost.

(** The store is up from the start. *)
Definition accepts_at_once (_ : nat) : ConnectOutcome :=
  Connected (memCollection no_text_index fixture).

(** Two refused attempts, then the store is up. *)
Definition third_time_lucky (n : nat) : ConnectOutcome :=
  if (n <? 2)%nat then Refused connection_lost
  else Connected (memCollection no_text_index fixture).

(** ** Predicates used in the statements *)

Definition name_le (p q : Product) : Prop := name_leb p q = true.

(** Which store answer a route waits for. *)
Definition store_fails (c : Collection) (r : Route) (e : JsError) : Prop :=
  match r with
  | Health => False
  | Products | Search => toArray c (find FilterAll) = Rejected e
  | ProductBySku s => findOne c (FilterSku s) = Rejected e
  | ProductsByCategory cat =>
      toArray c (sort [("name", 1)] (find (FilterCategories cat))) = Rejected e
  | Categories => distinct c "categories" = Rejected e
  | SearchText text => toArray c (find (FilterText text)) = Rejected e
  end.

(** The store operations each route invokes once past the gate. *)
Definition route_queries (r : Route) : list StoreCall :=
  match r with
  | Health => []
  | Products | Search => [CallFind FilterAll; CallToArray]
  | ProductBySku s => [CallFindOne (FilterSku s)]
  | ProductsByCategory cat =>
      [CallFind (FilterCategories cat); CallSort [("name", 1)]; CallToArray]
  | Categories => [CallDistinct "categories"]
  | SearchText text => [CallFind (FilterText text); CallToArray]
  end.

Definition is_reset (s : Stmt) : bool :=
  match s with
  | SetMongoConnected false => true
  | _ => false
  end.

Definition sets_flag (s : Stmt) : bool :=
  match s with
  | SetMongoConnected true => true
  | _ => false
  end.

Definition schedules (s : Stmt) : bool :=
  match s with
  | SetTimeout _ | CallTryConnect => true
  | _ => false
  end.

(** Every [this.mongoConnected = true] still to run comes after an
    assignment of [this.collection], unless the collection has been
    assigned already. *)
Fixpoint binds_before_flag (bound_now : bool) (l : list Stmt) : bool :=
  match l with
  | [] => true
  | SetCollection _ :: l' => binds_before_flag true l'
  | SetMongoConnected true :: l' => bound_now && binds_before_flag bound_now l'
  | _ :: l' => binds_before_flag bound_now l'
  end.

Section Invariant.

Variable mongo : nat -> ConnectOutcome.
Variable opts : Options.

(** Where the value of [this.collection] can come from: the [products]
    property of the injected mocks, defined or not, or the collection of
    a call of [MongoClient.connect] that succeeded. *)
Definition origin (connects_now : nat) (x : option Collection) : Prop :=
  (exists mocks, opt_mockCollections opts = Some mocks /\ x = products mocks)
  \/ (exists n c, (n < connects_now)%nat /\ mongo n = Connected c /\ x = Some c).

Definition flag_due (p : Process) : Prop :=
  mongoConnected (this p) = true \/ existsb sets_flag (running p) = true.

Record Inv (p : Process) : Prop := {
  inv_reset_first : existsb is_reset (tl (running p)) = false;
  inv_no_reset : mongoConnected (this p) = true ->
                 existsb is_reset (running p) = false;
  inv_calls : forall n, In (ConnectPromise n) (pending p) -> (n < connects p)%nat;
  inv_single : (length (pending p) + length (filter schedules (running p)) <= 1)%nat;
  inv_done : flag_due p ->
             pending p = [] /\ existsb schedules (running p) = false;
  inv_success : flag_due p ->
                opt_mockCollections opts <> None
                \/ exists n c, (n < connects p)%nat /\ mongo n = Connected c;
  inv_backoff : forall d,
      In (Timeout d) (pending p) \/ In (SetTimeout d) (running p) -> d = 2000
}.

(** The flag is raised only over an assigned collection: either
    [this.collection] holds a value with an origin, or the flag is down
    and whatever will raise it assigns the collection first; and every
    assignment still to run has an origin. *)
Record Assigned (p : Process) : Prop := {
  asg_stmt : forall x,
      In (SetCollection x) (running p) -> origin (connects p) x;
  asg_field : origin (connects p) (collection (this p))
              \/ (mongoConnected (this p) = false
                  /\ binds_before_flag false (running p) = true)
}.

(** Injected mocks, if any, carry a [products] entry. *)
Definition mocks_have_products : Prop :=
  forall mocks, opt_mockCollections opts = Some mocks -> products mocks <> None.

End Invariant.

Arguments inv_reset_first {mongo opts} p _.
Arguments inv_no_reset {mongo opts} p _.
Arguments inv_calls {mongo opts} p _.
Arguments inv_single {mongo opts} p _.
Arguments inv_done {mongo opts} p _.
Arguments inv_success {mongo opts} p _.
Arguments asg_stmt {mongo opts} p _.
Arguments asg_field {mongo opts} p _.
Arguments inv_backoff {mongo opts} p _.

(** ** Bookkeeping over the supervisor's statements *)

(** [tryConnect()]: the statement that calls [MongoClient.connect]. *)
Definition is_call (s : Stmt) : bool :=
  match s with
  | CallTryConnect => true
  | _ => false
  end.

(** The statements that write to [this.logger]. *)
Definition logs (s : Stmt) : bool :=
  match s with
  | LoggerInfo _ | LoggerError _ => true
  | _ => false
  end.

(** The constructor's assignments of [mongoHost] and [mongoUrl]. *)
Definition configures (s : Stmt) : bool :=
  match s with
  | SetMongoHost _ | SetMongoUrl => true
  | _ => false
  end.

Definition is_promise (e : Pending) : bool :=
  match e with
  | ConnectPromise _ => true
  | Timeout _ => false
  end.

(** Connect calls made or about to be made by the running task. *)
Definition attempts_due (p : Process) : nat :=
  (connects p + length (filter is_call (running p)))%nat.

(** Connect attempts in flight, timers armed, and statements of the
    running task that will start one or the other. *)
Definition attempts_open (p : Process) : nat :=
  (length (pending p) + length (filter schedules (running p)))%nat.

(** [this.mongoUrl] as the constructor computes it from the options. *)
Definition url_of (opts : Options) : string :=
  String.append "mongodb://"
    (String.append (js_string (opt_mongoHost opts)) ":27017/catalogue").

(** The log calls the handler made for a request. *)
Definition log_of (s : Served) : list LogEntry := req_log (final s).

(** Timekeeping and log accounting of the retry loop. *)
Record Accounts (p : Process) : Prop := {
  acct_wait : waited p = 2000 * Z.of_nat (pred (attempts_due p));
  acct_started : forall d,
      In (Timeout d) (pending p) \/ In (SetTimeout d) (running p) ->
      (1 <= connects p)%nat;
  acct_log : connects p
             = (length (logger p) + length (filter logs (running p))
                + length (filter is_promise (pending p)))%nat
}.

(** * Properties of the request handlers *)

Ltac known_app this :=
  destruct this as [flag host url dbn coll]; cbn in *; subst.

(** ** The availability gate *)

(** C1. While the connectivity flag is false, every route other than
    [/health] answers 500 with body "database not available", in either
    variant, and the trace of store operations is empty: the handler
    returns before any of find, findOne or distinct is called, and no
    timer or rejection is left behind. *)
Theorem disconnected_short_circuit :
  forall (v : SourceVariant) (this : App) (r : Route),
    r <> Health ->
    mongoConnected this = false ->
    response (serve v this r)
      = Some {| status := 500; body := Text "database not available" |}
    /\ queries (serve v this r) = []
    /\ unhandled (serve v this r) = [].
Proof.
  intros v this r Hr Hflag.
  known_app this.
  destruct r; try congruence; destruct v; repeat split; reflexivity.
Qed.

Lemma disconnected_short_circuit_witness :
  response (serve app_js unbound (ProductBySku "sku1"))
    = Some {| status := 500; body := Text "database not available" |}
  /\ queries (serve app_js unbound (ProductBySku "sku1")) = []
  /\ unhandled (serve app_js unbound (ProductBySku "sku1")) = [].
Proof.
  apply (disconnected_short_circuit app_js unbound (ProductBySku "sku1")).
  - discriminate.
  - reflexivity.
Defined.

(** C3. [GET /health] answers 200 with [{app: "OK", mongo: b}], [b]
    being the connectivity flag as it is, whatever the flag and the
    collection are; it never consults the store. *)
Theorem health_reports_flag :
  forall (v : SourceVariant) (this : App),
    response (serve v this Health)
      = Some {| status := 200; body := JsonHealth "OK" (mongoConnected this) |}
    /\ queries (serve v this Health) = []
    /\ unhandled (serve v this Health) = [].
Proof.
  intros v this; destruct v; repeat split; reflexivity.
Qed.

(** ** Empty results *)

(** C4. Connected, with a store that answers the category query with no
    document, [GET /products/:cat] is a 404 "No products for <cat>";
    with a store that answers the text query with no document,
    [GET /search/:text] is a 200 carrying the empty array. *)
Theorem empty_category_404_empty_search_200 :
  forall (v : SourceVariant) (this : App) (c : Collection) (cat text : string),
    mongoConnected this = true ->
    collection this = Some c ->
    toArray c (sort [("name", 1)] (find (FilterCategories cat))) = Resolved [] ->
    toArray c (find (FilterText text)) = Resolved [] ->
    response (serve v this (ProductsByCategory cat))
      = Some {| status := 404; body := Text (String.append "No products for " cat) |}
    /\ response (serve v this (SearchText text))
      = Some {| status := 200; body := JsonProducts [] |}.
Proof.
  intros v this c cat text Hflag Hcoll Hcat Htext.
  known_app this.
  unfold sort, find in Hcat, Htext; cbn in Hcat, Htext.
  destruct v; split;
    cbv [serve response handle AppJs.handle Part000.handle
         AppJs.get_products_cat Part000.get_products_cat
         AppJs.get_search_text Part000.get_search_text
         setupMiddleware bind try_catch collection_find cursor_sorted
         cursor_toArray this_collection called modify ret res_set with_res
         fresh_task negb mongoConnected collection fst snd find sort
         cursor_filter cursor_sort res store_calls req_log timers await];
    rewrite ?Hcat, ?Htext; reflexivity.
Qed.

Lemma empty_category_404_empty_search_200_witness :
  response (serve app_js (bound (memCollection no_text_index fixture))
                  (ProductsByCategory "cat9"))
    = Some {| status := 404; body := Text "No products for cat9" |}
  /\ response (serve app_js (bound (memCollection no_text_index fixture))
                     (SearchText "robot"))
    = Some {| status := 200; body := JsonProducts [] |}.
Proof.
  apply (empty_category_404_empty_search_200 app_js
           (bound (memCollection no_text_index fixture))
           (memCollection no_text_index fixture) "cat9" "robot");
    reflexivity.
Defined.

(** ** Lookup by sku *)

Lemma find_by_sku_some :
  forall tm docs s p,
    List.find (matches tm (FilterSku s)) docs = Some p ->
    In p docs /\ sku p = s.
Proof.
  intros tm docs s p H.
  apply find_some in H; destruct H as [Hin Hm].
  split; [assumption | now apply String.eqb_eq in Hm].
Qed.

Lemma find_by_sku_none :
  forall tm docs s,
    (forall p, In p docs -> sku p <> s) ->
    List.find (matches tm (FilterSku s)) docs = None.
Proof.
  intros tm docs s Hall.
  destruct (List.find (matches tm (FilterSku s)) docs) as [p|] eqn:E; [|reflexivity].
  apply find_by_sku_some in E; destruct E as [Hin Heq].
  now apply Hall in Hin.
Qed.

Lemma find_by_sku_exists :
  forall tm docs s,
    (exists p, In p docs /\ sku p = s) ->
    exists q, List.find (matches tm (FilterSku s)) docs = Some q.
Proof.
  intros tm docs s [p [Hin Heq]].
  destruct (List.find (matches tm (FilterSku s)) docs) as [q|] eqn:E.
  - now exists q.
  - exfalso.
    apply (find_none _ _ E) in Hin.
    cbn in Hin; rewrite Heq, String.eqb_refl in Hin; discriminate.
Qed.

(** What [/product/:sku] answers when the store settles the lookup. *)
Lemma product_lookup_response :
  forall v this c s,
    mongoConnected this = true ->
    collection this = Some c ->
    response (serve v this (ProductBySku s))
      = match findOne c (FilterSku s) with
        | Resolved (Some p) => Some {| status := 200; body := JsonProduct p |}
        | Resolved None => Some {| status := 404; body := Text "SKU not found" |}
        | Rejected _ => None
        end.
Proof.
  intros v this c s Hflag Hcoll.
  known_app this.
  destruct v; cbv [serve response handle AppJs.handle Part000.handle
    AppJs.get_product Part000.get_product run_callback fire fold_left
    AppJs.lookup_product Part000.lookup_product collection_findOne
    setupMiddleware bind try_catch this_collection called modify ret res_set
    with_res fresh_task negb mongoConnected collection fst snd setTimeout
    clear_timers escaped final unhandled res store_calls req_log timers await
    app];
    destruct (findOne c (FilterSku s)) as [[p|]|e]; reflexivity.
Qed.

(** C5. Connected to a store holding [docs], [GET /product/:sku] answers
    200 with a document of [docs] whose [sku] is the path parameter when
    there is one, and 404 "SKU not found" when no document has it. *)
Theorem product_by_sku_found_or_404 :
  forall (v : SourceVariant) (this : App) (tm : string -> Product -> bool)
         (docs : list Product) (s : string),
    mongoConnected this = true ->
    collection this = Some (memCollection tm docs) ->
    ((exists p, In p docs /\ sku p = s) ->
     exists p, In p docs /\ sku p = s
       /\ response (serve v this (ProductBySku s))
          = Some {| status := 200; body := JsonProduct p |})
    /\ ((forall p, In p docs -> sku p <> s) ->
        response (serve v this (ProductBySku s))
          = Some {| status := 404; body := Text "SKU not found" |}).
Proof.
  intros v this tm docs s Hflag Hcoll.
  rewrite (product_lookup_response v this _ s Hflag Hcoll); cbn [findOne memCollection].
  split.
  - intros Hex.
    destruct (find_by_sku_exists tm docs s Hex) as [q Hq].
    destruct (find_by_sku_some _ _ _ _ Hq) as [Hin Heq].
    exists q; rewrite Hq; auto.
  - intros Hnone.
    now rewrite (find_by_sku_none tm docs s Hnone).
Qed.

Lemma product_by_sku_found_or_404_witness :
  (exists p, In p fixture /\ sku p = "sku1"
     /\ response (serve app_js (bound (memCollection no_text_index fixture))
                        (ProductBySku "sku1"))
        = Some {| status := 200; body := JsonProduct p |})
  /\ response (serve app_js (bound (memCollection no_text_index fixture))
                     (ProductBySku "missing"))
     = Some {| status := 404; body := Text "SKU not found" |}.
Proof.
  split.
  - apply (product_by_sku_found_or_404 app_js
             (bound (memCollection no_text_index fixture))
             no_text_index fixture "sku1"); try reflexivity.
    exists product1; split; [left; reflexivity | reflexivity].
  - apply (product_by_sku_found_or_404 app_js
             (bound (memCollection no_text_index fixture))
             no_text_index fixture "missing"); try reflexivity.
    intros p [H | [H | []]]; subst p; discriminate.
Defined.

(** ** Listing a category *)

Lemma ascii_compare_lt_trans :
  forall a b c,
    Ascii.compare a b = Lt -> Ascii.compare b c = Lt -> Ascii.compare a c = Lt.
Proof.
  unfold Ascii.compare; intros a b c Hab Hbc.
  rewrite N.compare_lt_iff in *; lia.
Qed.

Lemma string_compare_lt_trans :
  forall s1 s2 s3,
    String.compare s1 s2 = Lt -> String.compare s2 s3 = Lt ->
    String.compare s1 s3 = Lt.
Proof.
  induction s1 as [|a s1 IH]; intros [|b s2] [|c s3]; cbn; try congruence.
  destruct (Ascii.compare a b) eqn:Eab; try discriminate;
    destruct (Ascii.compare b c) eqn:Ebc; try discriminate; intros H12 H23.
  - apply Ascii.compare_eq_iff in Eab, Ebc; subst.
    unfold Ascii.compare; rewrite N.compare_refl; eauto.
  - apply Ascii.compare_eq_iff in Eab; subst; now rewrite Ebc.
  - apply Ascii.compare_eq_iff in Ebc; subst; now rewrite Eab.
  - now rewrite (ascii_compare_lt_trans a b c Eab Ebc).
Qed.

Lemma string_compare_refl :
  forall s, String.compare s s = Eq.
Proof.
  induction s as [|a s IH]; cbn; [reflexivity|].
  unfold Ascii.compare; now rewrite N.compare_refl.
Qed.

Lemma string_leb_trans :
  forall s1 s2 s3,
    String.leb s1 s2 = true -> String.leb s2 s3 = true -> String.leb s1 s3 = true.
Proof.
  unfold String.leb; intros s1 s2 s3.
  destruct (String.compare s1 s2) eqn:E12; try discriminate;
    destruct (String.compare s2 s3) eqn:E23; try discriminate; intros _ _.
  - apply String.compare_eq_iff in E12; apply String.compare_eq_iff in E23.
    subst; now rewrite string_compare_refl.
  - apply String.compare_eq_iff in E12; subst; now rewrite E23.
  - apply String.compare_eq_iff in E23; subst; now rewrite E12.
  - now rewrite (string_compare_lt_trans _ _ _ E12 E23).
Qed.

Lemma insert_by_name_perm :
  forall p l, Permutation (insert_by_name p l) (p :: l).
Proof.
  induction l as [|q l IH]; cbn.
  - apply Permutation_refl.
  - destruct (name_leb p q).
    + apply Permutation_refl.
    + apply perm_trans with (q :: p :: l).
      * now apply perm_skip.
      * apply perm_swap.
Qed.

Lemma sort_by_name_perm :
  forall l, Permutation (sort_by_name l) l.
Proof.
  induction l as [|p l IH]; cbn.
  - apply perm_nil.
  - apply perm_trans with (p :: sort_by_name l).
    + apply insert_by_name_perm.
    + now apply perm_skip.
Qed.

Lemma insert_by_name_sorted :
  forall p l,
    StronglySorted name_le l -> StronglySorted name_le (insert_by_name p l).
Proof.
  induction l as [|q l IH]; cbn; intros Hs.
  - constructor; [constructor | constructor].
  - inversion Hs as [|? ? Hl Hq]; subst.
    destruct (name_leb p q) eqn:E.
    + constructor; [assumption|].
      constructor; [exact E|].
      eapply Forall_impl; [|exact Hq].
      intros r Hr; unfold name_le, name_leb in *.
      eapply string_leb_trans; eassumption.
    + constructor; [now apply IH|].
      apply (Permutation_Forall (Permutation_sym (insert_by_name_perm p l))).
      constructor; [|assumption].
      unfold name_le, name_leb in *.
      destruct (String.leb_total (name p) (name q)); congruence.
Qed.

Lemma sort_by_name_sorted :
  forall l, StronglySorted name_le (sort_by_name l).
Proof.
  induction l as [|p l IH]; cbn.
  - constructor.
  - now apply insert_by_name_sorted.
Qed.

(** What [/products/:cat] answers when the store resolves the query. *)
Lemma category_listing_response :
  forall v this c cat l,
    mongoConnected this = true ->
    collection this = Some c ->
    toArray c (sort [("name", 1)] (find (FilterCategories cat))) = Resolved l ->
    response (serve v this (ProductsByCategory cat))
      = match l with
        | [] => Some {| status := 404;
                        body := Text (String.append "No products for " cat) |}
        | _ :: _ => Some {| status := 200; body := JsonProducts l |}
        end.
Proof.
  intros v this c cat l Hflag Hcoll Hq.
  known_app this.
  unfold sort, find in Hq; cbn in Hq.
  destruct v; cbv [serve response handle AppJs.handle Part000.handle
    AppJs.get_products_cat Part000.get_products_cat
    setupMiddleware bind try_catch collection_find cursor_sorted
    cursor_toArray this_collection called modify ret res_set with_res
    fresh_task negb mongoConnected collection fst snd find sort
    cursor_filter cursor_sort res store_calls req_log timers await];
    rewrite Hq; destruct l; reflexivity.
Qed.

(** C6. Connected to a store holding [docs], when at least one document
    lists the category, [GET /products/:cat] answers 200 with exactly
    the documents of [docs] whose [categories] contain it (a permutation
    of that selection), in ascending order of [name]. *)
Theorem category_listing_sorted_by_name :
  forall (v : SourceVariant) (this : App) (tm : string -> Product -> bool)
         (docs : list Product) (cat : string),
    mongoConnected this = true ->
    collection this = Some (memCollection tm docs) ->
    filter (has_category cat) docs <> [] ->
    exists l,
      response (serve v this (ProductsByCategory cat))
        = Some {| status := 200; body := JsonProducts l |}
      /\ Permutation l (filter (has_category cat) docs)
      /\ StronglySorted name_le l.
Proof.
  intros v this tm docs cat Hflag Hcoll Hne.
  exists (sort_by_name (filter (has_category cat) docs)).
  assert (Hp := sort_by_name_perm (filter (has_category cat) docs)).
  split; [|split; [exact Hp | apply sort_by_name_sorted]].
  rewrite (category_listing_response v this _ cat
             (sort_by_name (filter (has_category cat) docs)) Hflag Hcoll)
    by reflexivity.
  destruct (sort_by_name (filter (has_category cat) docs)) eqn:E; [|reflexivity].
  apply Permutation_nil in Hp; contradiction.
Qed.

Lemma category_listing_sorted_by_name_witness :
  exists l,
    response (serve app_js (bound (memCollection no_text_index fixture))
                    (ProductsByCategory "cat1"))
      = Some {| status := 200; body := JsonProducts l |}
    /\ Permutation l (filter (has_category "cat1") fixture)
    /\ StronglySorted name_le l.
Proof.
  apply (category_listing_sorted_by_name app_js
           (bound (memCollection no_text_index fixture))
           no_text_index fixture "cat1"); try reflexivity.
  cbn; discriminate.
Defined.

(** ** Search without text *)

Lemma filter_all :
  forall tm docs, filter (matches tm FilterAll) docs = docs.
Proof.
  induction docs as [|p docs IH]; cbn; [reflexivity | now rewrite IH].
Qed.

(** C7. [GET /search] and [GET /products] give the client the same
    response whatever the application state and the store's answer are;
    connected to a store holding [docs], that response is a 200 carrying
    all of [docs], unfiltered and in store order. *)
Theorem search_without_text_lists_all :
  forall (v : SourceVariant) (this : App) (tm : string -> Product -> bool)
         (docs : list Product),
    mongoConnected this = true ->
    collection this = Some (memCollection tm docs) ->
    response (serve v this Search) = response (serve v this Products)
    /\ response (serve v this Products)
       = Some {| status := 200; body := JsonProducts docs |}.
Proof.
  intros v this tm docs Hflag Hcoll.
  known_app this.
  destruct v; split; cbn; rewrite ?filter_all; reflexivity.
Qed.

Lemma search_without_text_lists_all_witness :
  response (serve app_js (bound (memCollection no_text_index fixture)) Search)
    = response (serve app_js (bound (memCollection no_text_index fixture)) Products)
  /\ response (serve app_js (bound (memCollection no_text_index fixture)) Products)
     = Some {| status := 200; body := JsonProducts fixture |}.
Proof.
  apply (search_without_text_lists_all app_js
           (bound (memCollection no_text_index fixture))
           no_text_index fixture); reflexivity.
Defined.

(** The two routes agree on every application state, failures and the
    disconnected case included. *)
Lemma search_same_as_products :
  forall v this, response (serve v this Search) = response (serve v this Products).
Proof.
  intros v this; known_app this.
  destruct v, flag, coll as [c|]; try reflexivity;
    cbv [serve response handle AppJs.handle Part000.handle
      AppJs.get_products Part000.get_products AppJs.get_search Part000.get_search
      setupMiddleware bind try_catch collection_find cursor_toArray
      this_collection called modify ret res_set with_res fresh_task negb
      mongoConnected collection fst snd find cursor_filter cursor_sort res
      store_calls req_log timers await];
    destruct (toArray c _); reflexivity.
Qed.

(** ** The two variants *)

(** C10. On every route, for every application state (connected or not,
    collection bound or not) and every answer of the store (documents,
    none, a missing document, a failure), both variants of the service
    end the request with the same status code, or both leave it without
    a response. *)
Theorem variants_same_status :
  forall (this : App) (r : Route),
    status_of (serve app_js this r) = status_of (serve part_000 this r).
Proof.
  intros this r; known_app this.
  destruct flag, coll as [c|], r; try reflexivity;
    cbv [serve status_of response handle AppJs.handle Part000.handle
      AppJs.get_products Part000.get_products AppJs.get_search Part000.get_search
      AppJs.get_search_text Part000.get_search_text
      AppJs.get_categories Part000.get_categories
      AppJs.get_products_cat Part000.get_products_cat
      AppJs.get_product Part000.get_product run_callback fire fold_left
      AppJs.lookup_product Part000.lookup_product collection_findOne
      collection_distinct cursor_sorted sort setTimeout clear_timers escaped
      final unhandled
      setupMiddleware bind try_catch collection_find cursor_toArray
      this_collection called modify ret res_set with_res fresh_task negb
      mongoConnected collection fst snd find cursor_filter cursor_sort res
      store_calls req_log timers await app];
    try match goal with
        | |- context [toArray ?c ?q] => destruct (toArray c q) as [[|p l]|e]
        | |- context [findOne ?c ?q] => destruct (findOne c q) as [[p|]|e]
        | |- context [distinct ?c ?q] => destruct (distinct c q) as [l|e]
        end;
    reflexivity.
Qed.

(** ** Store failures *)

Ltac unfold_handlers :=
  cbv [serve status_of response queries handle AppJs.handle Part000.handle
    AppJs.get_products Part000.get_products AppJs.get_search Part000.get_search
    AppJs.get_search_text Part000.get_search_text
    AppJs.get_categories Part000.get_categories
    AppJs.get_products_cat Part000.get_products_cat
    AppJs.get_product Part000.get_product run_callback fire fold_left
    AppJs.lookup_product Part000.lookup_product collection_findOne
    collection_distinct cursor_sorted sort setTimeout clear_timers escaped
    final unhandled
    setupMiddleware bind try_catch collection_find cursor_toArray
    this_collection called modify ret res_set with_res fresh_task negb
    mongoConnected collection fst snd find cursor_filter cursor_sort res
    store_calls req_log timers await app].

(** X9. In [app.js], on the routes that await the store inside their [try],
    a failing store call ends in the [catch]: 500 "internal error", the
    cause in the log only, nothing left unhandled. *)
Lemma app_js_store_failure_is_500 :
  forall this c r e,
    mongoConnected this = true ->
    collection this = Some c ->
    (forall s, r <> ProductBySku s) ->
    store_fails c r e ->
    response (serve app_js this r)
      = Some {| status := 500; body := Text "internal error" |}
    /\ unhandled (serve app_js this r) = []
    /\ exists tag,
         req_log (final (serve app_js this r))
           = [ {| log_level := LError; log_status := Some 500;
                  log_err := Some e;
                  log_fields := [("error_type", tag)]; log_msg := EmptyString |} ].
Proof.
  intros this c r e Hflag Hcoll Hr Hfail.
  known_app this.
  destruct r; cbn in Hfail; try contradiction;
    try (exfalso; eapply Hr; reflexivity);
    unfold sort, find in Hfail; cbn in Hfail;
    unfold_handlers; rewrite Hfail;
    (split; [reflexivity | split; [reflexivity | eexists; reflexivity]]).
Qed.

(** X10. In the second variant the same routes answer 500 with the caught
    error itself as the body. *)
Lemma part_000_store_failure_sends_cause :
  forall this c r e,
    mongoConnected this = true ->
    collection this = Some c ->
    (forall s, r <> ProductBySku s) ->
    store_fails c r e ->
    response (serve part_000 this r)
      = Some {| status := 500; body := JsonError e |}.
Proof.
  intros this c r e Hflag Hcoll Hr Hfail.
  known_app this.
  destruct r; cbn in Hfail; try contradiction;
    try (exfalso; eapply Hr; reflexivity);
    unfold sort, find in Hfail; cbn in Hfail;
    unfold_handlers; rewrite Hfail; reflexivity.
Qed.

(** On [/product/:sku] the lookup runs in a timer callback, outside the
    handler's [try]: when it fails nothing answers the client, nothing is
    logged by the handler, and the rejection is left unhandled. *)
Lemma product_lookup_failure_escapes :
  forall v this c s e,
    mongoConnected this = true ->
    collection this = Some c ->
    findOne c (FilterSku s) = Rejected e ->
    response (serve v this (ProductBySku s)) = None
    /\ req_log (final (serve v this (ProductBySku s))) = []
    /\ unhandled (serve v this (ProductBySku s)) = [e].
Proof.
  intros v this c s e Hflag Hcoll Hfail.
  known_app this.
  destruct v; unfold_handlers; rewrite Hfail; repeat split; reflexivity.
Qed.

(** C2. The lookup of [GET /product/sku1] fails on a store that has
    become unreachable.  [app.js] sends no response at all: the status
    stays unset, the "internal error" branch never runs, the request log
    is empty and the error is an unhandled rejection.  The other routes
    of the same file do answer 500 "internal error" there. *)
Theorem product_lookup_failure_gets_no_response :
  response (serve app_js (bound (failingCollection connection_lost))
                  (ProductBySku "sku1")) = None
  /\ req_log (final (serve app_js (bound (failingCollection connection_lost))
                           (ProductBySku "sku1"))) = []
  /\ unhandled (serve app_js (bound (failingCollection connection_lost))
                      (ProductBySku "sku1")) = [connection_lost]
  /\ response (serve app_js (bound (failingCollection connection_lost)) Products)
     = Some {| status := 500; body := Text "internal error" |}.
Proof.
  repeat split; reflexivity.
Qed.

(** The same request in the second variant, and what that variant
    sends on [/products] when the store fails. *)
Lemma part_000_failure_responses :
  response (serve part_000 (bound (failingCollection connection_lost))
                  (ProductBySku "sku1")) = None
  /\ response (serve part_000 (bound (failingCollection connection_lost)) Products)
     = Some {| status := 500; body := JsonError connection_lost |}.
Proof.
  split; reflexivity.
Qed.

(** * Properties of the constructor and of the connection supervisor *)

Ltac break_hyps :=
  repeat match goal with
         | H : _ /\ _ |- _ => destruct H
         | H : _ \/ _ |- _ => destruct H
         | H : exists _, _ |- _ => destruct H
         | H : False |- _ => destruct H
         | H : In _ (_ ++ _) |- _ => apply in_app_or in H
         | H : In _ (_ :: _) |- _ => cbn in H
         | H : In _ [] |- _ => destruct H
         | H : SetCollection _ = SetCollection _ |- _ => inversion H; subst; clear H
         | H : Some _ = Some _ |- _ => inversion H; subst; clear H
         | H : SetTimeout _ = SetTimeout _ |- _ => inversion H; subst; clear H
         | H : Timeout _ = Timeout _ |- _ => inversion H; subst; clear H
         | H : ConnectPromise _ = ConnectPromise _ |- _ => inversion H; subst; clear H
         | H : _ && _ = true |- _ => apply andb_prop in H
         | H : _ || _ = false |- _ => apply orb_false_elim in H
         end.

Ltac finish := break_hyps; subst; try congruence; try lia; eauto 7.

Section Supervisor.

Variable v : SourceVariant.
Variable mongo : nat -> ConnectOutcome.
Variable opts : Options.

Lemma inv_new : Inv mongo opts (new opts).
Proof.
  unfold new, constructor_body, startMongoLoop.
  destruct (opt_mockCollections opts) as [mocks|] eqn:E;
    constructor; unfold flag_due; cbn; intros;
    repeat match goal with
           | H : _ \/ _ |- _ => destruct H
           | H : False |- _ => destruct H
           end;
    try discriminate; try lia; auto.
  left; congruence.
Qed.

Lemma existsb_tl_false :
  forall (f : Stmt -> bool) l, existsb f l = false -> existsb f (tl l) = false.
Proof.
  intros f [|s l]; cbn; [auto|].
  intros H; apply orb_false_elim in H; tauto.
Qed.

Lemma inv_step :
  forall p p', Inv mongo opts p -> step v mongo p = Some p' -> Inv mongo opts p'.
Proof.
  intros p p' I Hstep; unfold step in Hstep.
  destruct I as [Ifirst Inoreset Icalls Isingle Idone Isucc Iback].
  unfold flag_due in *.
  destruct (running p) as [|s rest] eqn:Er.
  - destruct (pending p) as [|[n|d] more] eqn:Ep; inversion Hstep; subst; clear Hstep;
      cbn in Isingle;
      assert (Hmore : more = []) by (destruct more; [reflexivity | cbn in Isingle; lia]);
      subst more.
    + assert (Hn : (n < connects p)%nat) by (apply Icalls; left; reflexivity).
      destruct (mongo n) as [c|e] eqn:Em; constructor; unfold flag_due;
        cbn in *; intros; try solve [finish].
      break_hyps; try congruence; exfalso; destruct Idone; auto; congruence.
    + constructor; unfold flag_due; cbn in *; intros; try solve [finish].
      break_hyps; try congruence; exfalso; destruct Idone; auto; congruence.
  - inversion Hstep; subst; clear Hstep.
    cbn in Ifirst.
    destruct s as [[|]| | | | | | | |]; constructor; unfold flag_due in *;
      cbn in *; intros; try solve [finish].
    all: try solve [auto using existsb_tl_false].
    all: try solve [break_hyps; exfalso; destruct Idone as [? ?]; auto; congruence].
    all: try solve [rewrite length_app; cbn; lia].
    all: try solve [break_hyps; [apply Icalls in H; lia | lia]].
    all: try solve [destruct Isucc as [?|[n [c [? ?]]]]; auto; right; exists n, c; split; [lia|auto]].
Qed.

Lemma inv_reaches :
  forall p q, Inv mongo opts p -> Reaches v mongo p q -> Inv mongo opts q.
Proof.
  intros p q I R; induction R; eauto using inv_step.
Qed.

Lemma reaches_trans :
  forall p q r, Reaches v mongo p q -> Reaches v mongo q r -> Reaches v mongo p r.
Proof.
  intros p q r Hpq Hqr; induction Hqr; eauto using Reaches.
Qed.

Lemma reaches_run :
  forall k p, Reaches v mongo p (run k v mongo p).
Proof.
  induction k as [|k IH]; intros p; cbn.
  - constructor.
  - destruct (step v mongo p) as [p'|] eqn:E; [|constructor].
    eapply reaches_trans; [|apply IH].
    eapply reaches_next; [constructor | exact E].
Qed.

Lemma run_add :
  forall a b p, run (a + b) v mongo p = run b v mongo (run a v mongo p).
Proof.
  induction a as [|a IH]; intros b p; cbn; [reflexivity|].
  destruct (step v mongo p) as [p'|] eqn:E; [apply IH|].
  destruct b; cbn; [reflexivity | now rewrite E].
Qed.

(** The constructor is the first task of the process. *)
Lemma constructor_is_first_task :
  run (length (constructor_body opts)) v mongo (new opts) = constructor v opts.
Proof.
  unfold constructor, new, constructor_body, startMongoLoop.
  destruct (opt_mockCollections opts); reflexivity.
Qed.

Lemma reaches_constructor :
  Reaches v mongo (new opts) (constructor v opts).
Proof.
  rewrite <- constructor_is_first_task; apply reaches_run.
Qed.

(** Once the flag is up, a step can only run what is left of the task
    that raised it: the flag stays, nothing is pending, no call is made. *)
Lemma connected_step :
  forall p p',
    Inv mongo opts p -> mongoConnected (this p) = true -> step v mongo p = Some p' ->
    mongoConnected (this p') = true
    /\ connects p' = connects p
    /\ pending p' = pending p.
Proof.
  intros p p' I Hflag Hstep.
  destruct (inv_done p I (or_introl Hflag)) as [Hpend Hsched].
  assert (Hreset := inv_no_reset p I Hflag).
  unfold step in Hstep.
  destruct (running p) as [|s rest]; [rewrite Hpend in Hstep; discriminate|].
  inversion Hstep; subst; clear Hstep.
  cbn in Hsched, Hreset.
  destruct s as [[|]| | | | | | | |]; cbn in *; try discriminate; auto.
Qed.

Lemma connected_forever :
  forall p q,
    Inv mongo opts p -> mongoConnected (this p) = true -> Reaches v mongo p q ->
    mongoConnected (this q) = true
    /\ connects q = connects p
    /\ pending q = [].
Proof.
  intros p q I Hflag R; induction R as [|p q q' R IH Hstep].
  - destruct (inv_done p I (or_introl Hflag)); auto.
  - destruct (IH I Hflag) as [Hq [Hc Hp]].
    destruct (connected_step q q' (inv_reaches _ _ I R) Hq Hstep) as [? [? ?]].
    repeat split; congruence.
Qed.

(** The three outcomes of a turn of the event loop between two tasks. *)

Lemma refused_logs_and_rearms :
  forall p n e,
    running p = [] -> pending p = [ConnectPromise n] -> mongo n = Refused e ->
    run 3 v mongo p
      = {| this := this p;
           logger := logger p ++ [connection_error_entry v e];
           running := []; pending := [Timeout 2000];
           connects := connects p; waited := waited p |}.
Proof.
  intros [a lg rn pd cn wt] n e Hr Hp Hm; cbn in *; subst.
  unfold step; cbn; rewrite Hm; reflexivity.
Qed.

Lemma timer_calls_connect_once :
  forall p d,
    running p = [] -> pending p = [Timeout d] ->
    run 2 v mongo p
      = {| this := this p; logger := logger p; running := [];
           pending := [ConnectPromise (connects p)];
           connects := S (connects p); waited := waited p + d |}.
Proof.
  intros [a lg rn pd cn wt] d Hr Hp; cbn in *; subst; reflexivity.
Qed.

Lemma connected_binds_then_flags :
  forall p n c,
    running p = [] -> pending p = [ConnectPromise n] -> mongo n = Connected c ->
    run 5 v mongo p
      = {| this := {| mongoConnected := true; mongoHost := mongoHost (this p);
                      mongoUrl := mongoUrl (this p); db := Some "catalogue";
                      collection := Some c |};
           logger := logger p ++ [info_entry "MongoDB connected"];
           running := []; pending := [];
           connects := connects p; waited := waited p |}.
Proof.
  intros [a lg rn pd cn wt] n c Hr Hp Hm; cbn in *; subst.
  unfold step; cbn; rewrite Hm; reflexivity.
Qed.

Lemma connectivity_flag_initial :
  opt_mockCollections opts = None ->
  mongoConnected (this (constructor v opts)) = false
  /\ running (constructor v opts) = []
  /\ pending (constructor v opts) = [ConnectPromise 0]
  /\ connects (constructor v opts) = 1%nat.
Proof.
  intros E; unfold constructor, constructor_body; rewrite E; cbn; auto.
Qed.

Lemma pending_single :
  forall p x more, Inv mongo opts p -> pending p = x :: more -> more = [].
Proof.
  intros p x more I Hp.
  assert (H := inv_single p I); rewrite Hp in H.
  destruct more; [reflexivity | cbn in H; lia].
Qed.

(** C8 (as the code has it).  The constructor first writes [false] into
    the flag.  Without mock collections it ends with the flag still
    false and the first connect call in flight; with mock collections it
    binds the mock and raises the flag itself, and never calls connect.
    From then on, at every program point: the flag is true only if mocks
    were injected or some connect call made so far succeeded; once true
    it stays true, and no connect call or timer follows; a refused
    connect appends one error entry to the log and arms exactly one
    timer of 2000 ms, whose firing makes exactly one new connect call; a
    successful connect binds the collection, raises the flag, logs once
    and leaves nothing pending. *)
Theorem connectivity_flag_lifecycle :
  hd_error (constructor_body opts) = Some (SetMongoConnected false)
  /\ (opt_mockCollections opts = None ->
      mongoConnected (this (constructor v opts)) = false
      /\ running (constructor v opts) = []
      /\ pending (constructor v opts) = [ConnectPromise 0]
      /\ connects (constructor v opts) = 1%nat)
  /\ (forall mocks, opt_mockCollections opts = Some mocks ->
      mongoConnected (this (constructor v opts)) = true
      /\ collection (this (constructor v opts)) = products mocks
      /\ running (constructor v opts) = []
      /\ pending (constructor v opts) = []
      /\ connects (constructor v opts) = 0%nat)
  /\ forall p, Reaches v mongo (new opts) p ->
       (mongoConnected (this p) = true ->
        opt_mockCollections opts <> None
        \/ exists n c, (n < connects p)%nat /\ mongo n = Connected c)
       /\ (mongoConnected (this p) = true ->
           forall q, Reaches v mongo p q ->
             mongoConnected (this q) = true
             /\ connects q = connects p
             /\ pending q = [])
       /\ (forall n more e,
             running p = [] -> pending p = ConnectPromise n :: more ->
             mongo n = Refused e ->
             mongoConnected (this p) = false
             /\ run 3 v mongo p
                = {| this := this p;
                     logger := logger p ++ [connection_error_entry v e];
                     running := []; pending := [Timeout 2000];
                     connects := connects p; waited := waited p |})
       /\ (forall d more,
             running p = [] -> pending p = Timeout d :: more ->
             d = 2000
             /\ run 2 v mongo p
                = {| this := this p; logger := logger p; running := [];
                     pending := [ConnectPromise (connects p)];
                     connects := S (connects p); waited := waited p + 2000 |})
       /\ (forall n more c,
             running p = [] -> pending p = ConnectPromise n :: more ->
             mongo n = Connected c ->
             run 5 v mongo p
               = {| this := {| mongoConnected := true;
                               mongoHost := mongoHost (this p);
                               mongoUrl := mongoUrl (this p);
                               db := Some "catalogue";
                               collection := Some c |};
                    logger := logger p ++ [info_entry "MongoDB connected"];
                    running := []; pending := [];
                    connects := connects p; waited := waited p |}
             /\ step v mongo (run 5 v mongo p) = None).
Proof.
  split; [reflexivity|].
  split.
  { intros E; unfold constructor, constructor_body; rewrite E; cbn; auto. }
  split.
  { intros mocks E; unfold constructor, constructor_body; rewrite E; cbn; auto. }
  intros p R.
  assert (I : Inv mongo opts p) by (eapply inv_reaches; [apply inv_new | exact R]).
  split; [intros Hflag; apply (inv_success p I); left; exact Hflag|].
  split; [intros Hflag q Rq; now apply (connected_forever p q I Hflag)|].
  split; [|split].
  - intros n more e Hr Hp Hm.
    assert (more = []) by (eapply pending_single; eauto); subst more.
    split; [|now apply (refused_logs_and_rearms p n e)].
    destruct (mongoConnected (this p)) eqn:Hflag; [|reflexivity].
    destruct (inv_done p I (or_introl Hflag)); congruence.
  - intros d more Hr Hp.
    assert (more = []) by (eapply pending_single; eauto); subst more.
    assert (d = 2000) by (apply (inv_backoff p I); left; rewrite Hp; left; reflexivity).
    subst d; split; [reflexivity | now apply (timer_calls_connect_once p 2000)].
  - intros n more c Hr Hp Hm.
    assert (more = []) by (eapply pending_single; eauto); subst more.
    rewrite (connected_binds_then_flags p n c Hr Hp Hm); split; reflexivity.
Qed.

(** ** The collection behind the flag *)

Lemma origin_later :
  forall n m x, (n <= m)%nat -> origin mongo opts n x -> origin mongo opts m x.
Proof.
  intros n m x Hle [H|[k [c [Hk [Hm Hx]]]]]; [left; exact H|].
  right; exists k, c; repeat split; auto; lia.
Qed.

Lemma assigned_new : Assigned mongo opts (new opts).
Proof.
  unfold new, constructor_body, startMongoLoop.
  destruct (opt_mockCollections opts) as [mocks|] eqn:E;
    constructor; cbn; intros; break_hyps; try discriminate; auto.
  left; exists mocks; split; congruence.
Qed.

Lemma assigned_step :
  forall p p',
    Inv mongo opts p -> Assigned mongo opts p -> step v mongo p = Some p' ->
    Assigned mongo opts p'.
Proof.
  intros p p' I [Hstmt Hfield] Hstep; unfold step in Hstep.
  destruct (running p) as [|s rest] eqn:Er.
  - destruct (pending p) as [|[n|d] more] eqn:Ep; inversion Hstep; subst; clear Hstep.
    + assert (Hn : (n < connects p)%nat)
        by (apply (inv_calls p I); rewrite Ep; left; reflexivity).
      destruct (mongo n) as [c|e] eqn:Em; constructor; cbn in *; intros;
        break_hyps; try discriminate; auto.
      all: right; exists n, c; auto.
    + constructor; cbn in *; intros; break_hyps; try discriminate; auto.
  - inversion Hstep; subst; clear Hstep.
    assert (Hrest : forall x, In (SetCollection x) rest -> origin mongo opts (connects p) x)
      by (intros x Hx; apply Hstmt; right; exact Hx).
    destruct s as [[|]| | | | | | | |]; constructor; cbn in *; intros;
      try solve [auto];
      try solve [eapply origin_later; [|eauto]; lia];
      try solve [destruct Hfield as [H|[H1 H2]]; auto; discriminate];
      try solve [destruct Hfield as [H|[H1 H2]];
                 [left; eapply origin_later; [|eauto]; lia | auto]].
Qed.

Lemma assigned_reaches :
  forall p, Reaches v mongo (new opts) p -> Assigned mongo opts p.
Proof.
  intros p R.
  remember (new opts) as p0 eqn:E.
  induction R as [|p0 q q' R IH Hstep]; subst.
  - apply assigned_new.
  - eapply assigned_step; eauto.
    eapply inv_reaches; [apply inv_new | exact R].
Qed.

(** Whenever the flag is true, [this.collection] holds what one of the
    two code paths assigned before raising it. *)
Lemma flag_implies_assigned :
  forall p,
    Reaches v mongo (new opts) p ->
    mongoConnected (this p) = true ->
    origin mongo opts (connects p) (collection (this p)).
Proof.
  intros p R Hflag.
  destruct (asg_field p (assigned_reaches p R)) as [H|[H _]]; [exact H|].
  congruence.
Qed.

End Supervisor.

(** ** What the handlers find behind the flag *)

Lemma bound_collection_is_queried :
  forall v this c r,
    mongoConnected this = true ->
    collection this = Some c ->
    queries (serve v this r) = route_queries r.
Proof.
  intros v this c r Hflag Hcoll; known_app this.
  destruct v, r; try reflexivity; unfold_handlers;
    try match goal with
        | |- context [toArray ?c ?q] => destruct (toArray c q) as [[|p l]|e]
        | |- context [findOne ?c ?q] => destruct (findOne c q) as [[p|]|e]
        | |- context [distinct ?c ?q] => destruct (distinct c q) as [l|e]
        end;
    reflexivity.
Qed.

(** Were the flag true over an undefined collection, reading
    [this.collection.find] would raise before any store call. *)
Lemma undefined_collection_raises :
  forall v,
    queries (serve v {| mongoConnected := true; mongoHost := None;
                        mongoUrl := EmptyString; db := None; collection := None |}
                   Products) = []
    /\ status_of (serve v {| mongoConnected := true; mongoHost := None;
                             mongoUrl := EmptyString; db := None; collection := None |}
                        Products) = Some 500.
Proof.
  intros v; destruct v; split; reflexivity.
Qed.

(** C9 (as the code has it).  At every program point the process
    reaches from [new CatalogueServiceApp(opts)], if [mongoConnected] is
    true then [collection] holds what the code assigned before raising
    the flag: the [products] property of the injected mocks, or the
    collection a successful connect returned.  When the injected mocks,
    if any, carry a [products] entry, that value is a collection, and
    every route past the availability check runs its store operations
    on it. *)
Theorem connected_implies_collection_assigned :
  forall (v : SourceVariant) (mongo : nat -> ConnectOutcome) (opts : Options)
         (p : Process),
    Reaches v mongo (new opts) p ->
    mongoConnected (this p) = true ->
    origin mongo opts (connects p) (collection (this p))
    /\ (mocks_have_products opts ->
        exists c,
          collection (this p) = Some c
          /\ forall v' r, queries (serve v' (this p) r) = route_queries r).
Proof.
  intros v mongo opts p R Hflag.
  assert (Ho := flag_implies_assigned v mongo opts p R Hflag).
  split; [exact Ho|].
  intros Hmocks.
  assert (Hc : exists c, collection (this p) = Some c).
  { destruct Ho as [[mocks [E Hx]]|[n [c [_ [_ Hx]]]]]; [|now exists c].
    destruct (products mocks) as [c|] eqn:Ep; [exists c; congruence|].
    exfalso; now apply (Hmocks mocks E). }
  destruct Hc as [c Hc]; exists c; split; [exact Hc|].
  intros v' r; now apply bound_collection_is_queried with c.
Qed.

Lemma connected_implies_collection_assigned_witness :
  origin never_connects test_options
         (connects (constructor app_js test_options))
         (collection (this (constructor app_js test_options)))
  /\ exists c,
       collection (this (constructor app_js test_options)) = Some c
       /\ forall v' r,
            queries (serve v' (this (constructor app_js test_options)) r)
              = route_queries r.
Proof.
  destruct (connected_implies_collection_assigned app_js never_connects
              test_options (constructor app_js test_options)
              (reaches_constructor app_js never_connects test_options)
              eq_refl) as [Ho Hb].
  split; [exact Ho|].
  apply Hb.
  intros mocks E; inversion E; subst mocks; discriminate.
Defined.

(** With mocks that lack a [products] entry the constructor raises the
    flag over an undefined collection. *)
Lemma flag_raised_over_undefined_collection :
  ~ (forall p,
       Reaches app_js never_connects (new empty_mocks_options) p ->
       mongoConnected (this p) = true ->
       exists c, collection (this p) = Some c).
Proof.
  intros H.
  destruct (H (constructor app_js empty_mocks_options)
              (reaches_constructor app_js never_connects empty_mocks_options)
              eq_refl) as [c Hc].
  discriminate Hc.
Qed.

(** What the service then answers: the availability check passes, the
    query raises before any store call, and the [catch] answers 500. *)
Example empty_mocks_requests_fail :
  mongoConnected (this (constructor app_js empty_mocks_options)) = true
  /\ response (serve app_js (this (constructor app_js empty_mocks_options))
                     Products)
     = Some {| status := 500; body := Text "internal error" |}
  /\ queries (serve app_js (this (constructor app_js empty_mocks_options))
                    Products) = [].
Proof.
  repeat split; reflexivity.
Qed.

(** The flag is raised with no connect call at all: the constructor does
    it when mock collections are injected. *)
Lemma flag_raised_without_connect :
  ~ (forall p,
       Reaches app_js never_connects (new test_options) p ->
       mongoConnected (this p) = true ->
       exists n c, (n < connects p)%nat /\ never_connects n = Connected c).
Proof.
  intros H.
  destruct (H (constructor app_js test_options)
              (reaches_constructor app_js never_connects test_options)
              eq_refl) as [n [c [_ Hc]]].
  discriminate Hc.
Qed.

Lemma connectivity_flag_lifecycle_witness :
  mongoConnected (this (constructor app_js server_options)) = false
  /\ run 3 app_js third_time_lucky (constructor app_js server_options)
     = {| this := this (constructor app_js server_options);
          logger := [connection_error_entry app_js connection_lost];
          running := []; pending := [Timeout 2000];
          connects := 1; waited := 0 |}.
Proof.
  destruct (connectivity_flag_lifecycle app_js third_time_lucky server_options)
    as [_ [_ [_ H]]].
  destruct (H (constructor app_js server_options)
              (reaches_constructor app_js third_time_lucky server_options))
    as [_ [_ [Hrefused _]]].
  apply (Hrefused 0%nat [] connection_lost); reflexivity.
Defined.

(** ** The retry loop ends when the store comes up *)

Lemma supervisor_converges_from :
  forall v mongo c j n p,
    running p = [] ->
    pending p = [ConnectPromise n] ->
    connects p = S n ->
    (forall i, (n <= i < n + j)%nat -> exists e, mongo i = Refused e) ->
    mongo (n + j)%nat = Connected c ->
    let q := run (5 * j + 5) v mongo p in
    mongoConnected (this q) = true
    /\ collection (this q) = Some c
    /\ running q = [] /\ pending q = []
    /\ connects q = S (n + j)
    /\ waited q = waited p + 2000 * Z.of_nat j
    /\ length (logger q) = (length (logger p) + j + 1)%nat.
Proof.
  intros v mongo c; induction j as [|j IH]; intros n p Hr Hp Hc Hfail Hok q; subst q.
  - rewrite Nat.add_0_r in Hok.
    change (5 * 0 + 5)%nat with 5%nat.
    rewrite (connected_binds_then_flags v mongo p n c Hr Hp Hok); cbn.
    rewrite length_app; cbn.
    repeat split; try lia.
  - destruct (Hfail n) as [e He]; [lia|].
    replace (5 * S j + 5)%nat with (3 + (2 + (5 * j + 5)))%nat by lia.
    rewrite run_add, (refused_logs_and_rearms v mongo p n e Hr Hp He).
    rewrite run_add, (timer_calls_connect_once v mongo _ 2000) by reflexivity.
    cbn [this logger connects waited].
    rewrite Hc.
    match goal with
    | |- context [run (5 * j + 5) v mongo ?p1] =>
        pose proof (IH (S n) p1 eq_refl eq_refl eq_refl) as IH1
    end.
    assert (Hfail' : forall i, (S n <= i < S n + j)%nat ->
                               exists e', mongo i = Refused e')
      by (intros i Hi; apply Hfail; lia).
    specialize (IH1 Hfail').
    replace (S n + j)%nat with (n + S j)%nat in IH1 by lia.
    specialize (IH1 Hok); cbv zeta in IH1.
    cbn [this logger connects waited] in IH1.
    destruct IH1 as [H1 [H2 [H3 [H4 [H5 [H6 H7]]]]]].
    rewrite length_app in H7; cbn [length] in H7.
    repeat split; auto; lia.
Qed.

(** Started as [server.js] starts it, with the store refusing [k]
    connections and accepting the next, the service ends connected to
    that store after [k + 1] calls of [MongoClient.connect] and
    [2000 * k] ms of waiting, with [k] error entries and one info entry
    in its log. *)
Lemma supervisor_converges :
  forall v mongo opts c k,
    opt_mockCollections opts = None ->
    (forall i, (i < k)%nat -> exists e, mongo i = Refused e) ->
    mongo k = Connected c ->
    let q := run (4 + (5 * k + 5)) v mongo (new opts) in
    mongoConnected (this q) = true
    /\ collection (this q) = Some c
    /\ running q = [] /\ pending q = []
    /\ step v mongo q = None
    /\ connects q = S k
    /\ waited q = 2000 * Z.of_nat k
    /\ length (logger q) = S k.
Proof.
  intros v mongo opts c k Hmock Hfail Hok q; subst q.
  rewrite run_add.
  assert (H4 : run 4 v mongo (new opts) = constructor v opts).
  { rewrite <- (constructor_is_first_task v mongo opts).
    unfold constructor_body; rewrite Hmock; reflexivity. }
  rewrite H4.
  destruct (connectivity_flag_initial v opts Hmock) as [Hflag [Hr [Hp Hc]]].
  destruct (supervisor_converges_from v mongo c k 0%nat (constructor v opts))
    as [H1 [H2 [H3 [H5 [H6 [H7 H8]]]]]]; auto.
  - intros i Hi; apply Hfail; lia.
  - assert (Hlog : logger (constructor v opts) = []).
    { unfold constructor, constructor_body; rewrite Hmock; reflexivity. }
    assert (Hw : waited (constructor v opts) = 0).
    { unfold constructor, constructor_body; rewrite Hmock; reflexivity. }
    rewrite Hlog in H8; rewrite Hw in H7; cbn [length] in H8.
    repeat split; auto; try lia.
    unfold step; now rewrite H3, H5.
Qed.

Example third_attempt_connects :
  let q := run 19 app_js third_time_lucky (new server_options) in
  mongoConnected (this q) = true
  /\ mongoUrl (this q) = "mongodb://mongodb:27017/catalogue"
  /\ connects q = 3%nat
  /\ waited q = 4000
  /\ map log_msg (logger q)
     = ["MongoDB connection failed"; "MongoDB connection failed";
        "MongoDB connected"]
  /\ step app_js third_time_lucky q = None
  /\ response (serve app_js (this q) Products)
     = Some {| status := 200; body := JsonProducts fixture |}.
Proof.
  repeat split; reflexivity.
Qed.

(** The tests' requests against the tests' mock. *)
Example tests_health :
  response (serve app_js (this (constructor app_js test_options)) Health)
    = Some {| status := 200; body := JsonHealth "OK" true |}.
Proof. reflexivity. Qed.

Example tests_product_by_sku :
  response (serve app_js (this (constructor app_js test_options))
                  (ProductBySku "sku1"))
    = Some {| status := 200; body := JsonProduct product1 |}
  /\ status_of (serve app_js (this (constructor app_js test_options))
                      (ProductBySku "nonexistent")) = Some 404.
Proof. split; reflexivity. Qed.

Example tests_categories :
  response (serve app_js (this (constructor app_js test_options)) Categories)
    = Some {| status := 200; body := JsonStrings ["cat1"; "cat2"] |}.
Proof. reflexivity. Qed.

(** * Further properties of the handlers *)

(** Every combination of flag, collection, route and store answer. *)
Ltac every_case this r :=
  known_app this;
  match goal with
  | flag : bool, coll : option Collection |- _ =>
      destruct flag, coll as [?c|], r
  end;
  unfold log_of; unfold_handlers;
  try match goal with
      | |- context [toArray ?c ?q] => destruct (toArray c q) as [[|?p ?l]|?e]
      | |- context [findOne ?c ?q] => destruct (findOne c q) as [[?p|]|?e]
      | |- context [distinct ?c ?q] => destruct (distinct c q) as [?l|?e]
      end.

(** X2. A request ends with status 200, 404 or 500, or with no response;
    404 is sent only by [/product/:sku] and [/products/:cat], and only
    [/product/:sku] can leave a request without a response. *)
Theorem status_is_200_404_or_500 :
  forall (v : SourceVariant) (this : App) (r : Route),
    match status_of (serve v this r) with
    | None => exists s, r = ProductBySku s
    | Some st =>
        st = 200
        \/ st = 500
        \/ (st = 404
            /\ ((exists s, r = ProductBySku s)
                \/ (exists cat, r = ProductsByCategory cat)))
    end.
Proof.
  intros v this r; destruct v; every_case this r; cbn; eauto 7.
Qed.

(** X3. On every route but [/product/:sku] each request gets a response
    and no error escapes the handler, whatever the flag, the collection
    (even undefined) and the store's answer are. *)
Theorem other_routes_always_answer :
  forall (v : SourceVariant) (this : App) (r : Route),
    (forall s, r <> ProductBySku s) ->
    response (serve v this r) <> None
    /\ unhandled (serve v this r) = [].
Proof.
  intros v this r Hr.
  destruct v; every_case this r;
    try (exfalso; eapply Hr; reflexivity);
    split; try reflexivity; discriminate.
Qed.

Lemma other_routes_always_answer_witness :
  response (serve app_js (bound (failingCollection connection_lost)) Categories)
    <> None
  /\ unhandled (serve app_js (bound (failingCollection connection_lost)) Categories)
     = [].
Proof.
  apply (other_routes_always_answer app_js
           (bound (failingCollection connection_lost)) Categories).
  intros s; discriminate.
Defined.

(** X4. The handlers of [app.js] call [logWarn] or [logError] exactly
    when they answer with something else than 200: then they make one
    such call, its [statusCode] is the status sent, and it is
    [logWarn] for a 404 and [logError] for a 500.  A handler that
    answers 200, or leaves the request unanswered, makes no log call. *)
Theorem app_js_logs_what_it_answers :
  forall (this : App) (r : Route),
    match response (serve app_js this r) with
    | None => log_of (serve app_js this r) = []
    | Some resp =>
        if status resp =? 200 then log_of (serve app_js this r) = []
        else exists entry,
            log_of (serve app_js this r) = [entry]
            /\ log_status entry = Some (status resp)
            /\ log_level entry = (if status resp =? 404 then LWarn else LError)
    end.
Proof.
  intros this r; every_case this r; cbn; try reflexivity;
    eexists; repeat split; reflexivity.
Qed.

(** X5. The handlers of the second variant make a log call only in
    their [catch] blocks, exactly when the body they send is the caught
    error: one call at level error with the message ERROR and no
    merging object, so the entry carries neither the error nor a status
    nor any tag.  Their unavailable and not-found answers make no log
    call. *)
Theorem part_000_logs_only_caught_errors :
  forall (this : App) (r : Route),
    match response (serve part_000 this r) with
    | Some {| status := _; body := JsonError e |} =>
        log_of (serve part_000 this r)
          = [ {| log_level := LError; log_status := None; log_err := None;
                 log_fields := []; log_msg := "ERROR" |} ]
    | _ => log_of (serve part_000 this r) = []
    end.
Proof.
  intros this r; every_case this r; reflexivity.
Qed.

(** X6. Connected, [/products], [/search], [/search/:text] and
    [/categories] send what the store resolved with as it is, with
    status 200: same elements, same order, and an empty array is a
    success too. *)
Theorem listing_routes_pass_store_answer_through :
  forall (v : SourceVariant) (this : App) (c : Collection),
    mongoConnected this = true ->
    collection this = Some c ->
    (forall l, toArray c (find FilterAll) = Resolved l ->
       response (serve v this Products)
         = Some {| status := 200; body := JsonProducts l |}
       /\ response (serve v this Search)
          = Some {| status := 200; body := JsonProducts l |})
    /\ (forall text l, toArray c (find (FilterText text)) = Resolved l ->
          response (serve v this (SearchText text))
            = Some {| status := 200; body := JsonProducts l |})
    /\ (forall cats, distinct c "categories" = Resolved cats ->
          response (serve v this Categories)
            = Some {| status := 200; body := JsonStrings cats |}).
Proof.
  intros v this c Hflag Hcoll; known_app this.
  unfold find; cbn.
  destruct v; repeat split; intros; unfold_handlers;
    match goal with H : _ = Resolved _ |- _ => rewrite H end; reflexivity.
Qed.

Lemma listing_routes_pass_store_answer_through_witness :
  response (serve app_js (bound (memCollection no_text_index [])) Products)
    = Some {| status := 200; body := JsonProducts [] |}
  /\ response (serve app_js (bound (memCollection no_text_index [])) Search)
     = Some {| status := 200; body := JsonProducts [] |}.
Proof.
  destruct (listing_routes_pass_store_answer_through app_js
              (bound (memCollection no_text_index []))
              (memCollection no_text_index []) eq_refl eq_refl)
    as [Hall _].
  apply (Hall []); reflexivity.
Defined.

(** X7. In [app.js] a not-found answer is logged with the path
    parameter as it came: a 404 on [/product/:sku] leaves one warn entry
    tagged SKU_NOT_FOUND with the sku, a 404 on [/products/:cat] one
    warn entry tagged CATEGORY_EMPTY with the category. *)
Theorem app_js_not_found_is_logged_with_parameter :
  forall (this : App) (r : Route),
    status_of (serve app_js this r) = Some 404 ->
    log_of (serve app_js this r)
      = match r with
        | ProductBySku s =>
            [ {| log_level := LWarn; log_status := Some 404; log_err := None;
                 log_fields := [("error_type", "SKU_NOT_FOUND"); ("sku", s)];
                 log_msg := EmptyString |} ]
        | ProductsByCategory cat =>
            [ {| log_level := LWarn; log_status := Some 404; log_err := None;
                 log_fields := [("error_type", "CATEGORY_EMPTY");
                                ("category", cat)];
                 log_msg := EmptyString |} ]
        | _ => []
        end.
Proof.
  intros this r; every_case this r; cbn; intros H;
    try discriminate H; reflexivity.
Qed.

Lemma app_js_not_found_is_logged_with_parameter_witness :
  log_of (serve app_js (bound (memCollection no_text_index fixture))
                (ProductBySku "missing"))
    = [ {| log_level := LWarn; log_status := Some 404; log_err := None;
           log_fields := [("error_type", "SKU_NOT_FOUND"); ("sku", "missing")];
           log_msg := EmptyString |} ].
Proof.
  apply (app_js_not_found_is_logged_with_parameter
           (bound (memCollection no_text_index fixture))
           (ProductBySku "missing")).
  reflexivity.
Defined.

(** X8. While disconnected, [app.js] logs each refused request once, at
    level error, with status 500, no error object, and the tags
    [error_type: DEPENDENCY_DOWN] and [dependency: mongodb]; the second
    variant logs nothing for it. *)
Theorem unavailable_is_logged_as_dependency_down :
  forall (this : App) (r : Route),
    r <> Health ->
    mongoConnected this = false ->
    log_of (serve app_js this r)
      = [ {| log_level := LError; log_status := Some 500; log_err := None;
             log_fields := [("error_type", "DEPENDENCY_DOWN");
                            ("dependency", "mongodb")];
             log_msg := EmptyString |} ]
    /\ log_of (serve part_000 this r) = [].
Proof.
  intros this r Hr Hflag; known_app this.
  destruct r; try congruence; split; reflexivity.
Qed.

Lemma unavailable_is_logged_as_dependency_down_witness :
  log_of (serve app_js unbound Categories)
    = [ {| log_level := LError; log_status := Some 500; log_err := None;
           log_fields := [("error_type", "DEPENDENCY_DOWN");
                          ("dependency", "mongodb")];
           log_msg := EmptyString |} ]
  /\ log_of (serve part_000 unbound Categories) = [].
Proof.
  apply (unavailable_is_logged_as_dependency_down unbound Categories).
  - discriminate.
  - reflexivity.
Defined.

Lemma app_js_store_failure_is_500_witness :
  response (serve app_js (bound (failingCollection connection_lost))
                  (ProductsByCategory "cat1"))
    = Some {| status := 500; body := Text "internal error" |}
  /\ unhandled (serve app_js (bound (failingCollection connection_lost))
                      (ProductsByCategory "cat1")) = []
  /\ exists tag,
       req_log (final (serve app_js (bound (failingCollection connection_lost))
                             (ProductsByCategory "cat1")))
         = [ {| log_level := LError; log_status := Some 500;
                log_err := Some connection_lost;
                log_fields := [("error_type", tag)]; log_msg := EmptyString |} ].
Proof.
  apply (app_js_store_failure_is_500
           (bound (failingCollection connection_lost))
           (failingCollection connection_lost)
           (ProductsByCategory "cat1") connection_lost).
  - reflexivity.
  - reflexivity.
  - intros s; discriminate.
  - reflexivity.
Defined.

Lemma part_000_store_failure_sends_cause_witness :
  response (serve part_000 (bound (failingCollection connection_lost)) Categories)
    = Some {| status := 500; body := JsonError connection_lost |}.
Proof.
  apply (part_000_store_failure_sends_cause
           (bound (failingCollection connection_lost))
           (failingCollection connection_lost) Categories connection_lost).
  - reflexivity.
  - reflexivity.
  - intros s; discriminate.
  - reflexivity.
Defined.

(** * Further properties of the supervisor *)

Section SupervisorAccounts.

Variable v : SourceVariant.
Variable mongo : nat -> ConnectOutcome.
Variable opts : Options.

Lemma accounts_new : Accounts (new opts).
Proof.
  unfold new, constructor_body, startMongoLoop.
  destruct (opt_mockCollections opts);
    constructor; unfold attempts_due; cbn -[Z.mul]; intros; break_hyps;
    try discriminate; reflexivity.
Qed.

Lemma accounts_step :
  forall p p',
    Inv mongo opts p -> Accounts p -> step v mongo p = Some p' -> Accounts p'.
Proof.
  intros p p' I [Hwait Hstart Hlog] Hstep; unfold step in Hstep.
  unfold attempts_due in *.
  destruct (running p) as [|s rest] eqn:Er.
  - destruct (pending p) as [|[n|d] more] eqn:Ep; inversion Hstep; subst; clear Hstep.
    + assert (Hn : (n < connects p)%nat)
        by (apply (inv_calls p I); rewrite Ep; left; reflexivity).
      destruct (mongo n) as [c|e]; constructor; unfold attempts_due;
        cbn -[Z.mul] in *; intros; break_hyps; try discriminate; eauto; lia.
    + assert (Hd : d = 2000)
        by (apply (inv_backoff p I); left; rewrite Ep; left; reflexivity).
      assert (H1 : (1 <= connects p)%nat) by (apply (Hstart d); left; left; reflexivity).
      subst d.
      constructor; unfold attempts_due; cbn -[Z.mul] in *; intros; break_hyps;
        try discriminate; eauto; lia.
  - inversion Hstep; subst; clear Hstep.
    destruct s as [[|]| | | | | | | |]; constructor; unfold attempts_due;
      cbn -[Z.mul] in *; intros; rewrite ?filter_app, ?length_app in *; cbn -[Z.mul] in *;
      break_hyps; try discriminate; eauto; try lia.
Qed.

Lemma accounts_reaches :
  forall p, Reaches v mongo (new opts) p -> Inv mongo opts p /\ Accounts p.
Proof.
  intros p R.
  remember (new opts) as p0 eqn:E.
  induction R as [|p0 q q' R IH Hstep]; subst.
  - split; [apply inv_new | apply accounts_new].
  - destruct (IH eq_refl) as [I A].
    split; [eapply inv_step; eauto | eapply accounts_step; eauto].
Qed.

(** X11. The back-off is fixed: at every program point the time spent in
    retry timers is 2000 ms for each connect call made or about to be
    made after the first, so the k-th call never comes earlier or later
    than [2000 * (k - 1)] ms of waiting. *)
Theorem backoff_is_2000_per_attempt :
  forall p,
    Reaches v mongo (new opts) p ->
    waited p = 2000 * Z.of_nat (pred (attempts_due p)).
Proof.
  intros p R; destruct (accounts_reaches p R) as [_ A]; apply (acct_wait p A).
Qed.

(** X12. The supervisor's log accounts for every connect call: the
    number of calls made equals the entries already logged, plus the
    log statement the running task still has to execute, plus the call
    in flight.  Nothing else is ever written to that log. *)
Theorem every_attempt_is_logged_once :
  forall p,
    Reaches v mongo (new opts) p ->
    connects p
      = (length (logger p) + length (filter logs (running p))
         + length (filter is_promise (pending p)))%nat.
Proof.
  intros p R; destruct (accounts_reaches p R) as [_ A]; apply (acct_log p A).
Qed.

(** While the flag is down and no assignment of it is due, something
    keeps the loop going. *)
Lemma loop_alive_step :
  forall p p',
    Inv mongo opts p ->
    flag_due p \/ (1 <= attempts_open p)%nat ->
    step v mongo p = Some p' ->
    flag_due p' \/ (1 <= attempts_open p')%nat.
Proof.
  intros p p' I H Hstep.
  destruct (mongoConnected (this p)) eqn:Hflag.
  { left; left. now destruct (connected_step v mongo opts p p' I Hflag Hstep). }
  unfold step in Hstep; unfold flag_due, attempts_open in *.
  destruct (running p) as [|s rest] eqn:Er.
  - destruct (pending p) as [|[n|d] more] eqn:Ep; inversion Hstep; subst; clear Hstep.
    + destruct (mongo n); cbn; auto; right; lia.
    + cbn; right; lia.
  - inversion Hstep; subst; clear Hstep.
    destruct s as [[|]| | | | | | | |]; cbn in *;
      rewrite ?length_app in *; cbn in *; try rewrite Hflag in *;
      try solve [left; left; reflexivity];
      destruct H as [[H|H]|H]; try discriminate; auto; right; lia.
Qed.

Lemma loop_alive :
  forall p,
    Reaches v mongo (new opts) p ->
    flag_due p \/ (1 <= attempts_open p)%nat.
Proof.
  intros p R.
  remember (new opts) as p0 eqn:E.
  induction R as [|p0 q q' R IH Hstep]; subst.
  - unfold new, constructor_body, startMongoLoop, flag_due, attempts_open.
    destruct (opt_mockCollections opts); cbn; auto.
  - eapply loop_alive_step; eauto.
    eapply inv_reaches; [apply inv_new | exact R].
Qed.

(** X13. Never two attempts at once, and never none while disconnected:
    at every program point before the flag is raised or about to be,
    exactly one connect call is in flight, or one timer is armed, or one
    statement of the running task is about to start one; once the flag
    is up there is none. *)
Theorem exactly_one_attempt_open :
  forall p,
    Reaches v mongo (new opts) p ->
    (mongoConnected (this p) = false ->
     existsb sets_flag (running p) = false ->
     attempts_open p = 1%nat)
    /\ (mongoConnected (this p) = true -> attempts_open p = 0%nat).
Proof.
  intros p R.
  assert (I : Inv mongo opts p) by (eapply inv_reaches; [apply inv_new | exact R]).
  split.
  - intros Hflag Hdue.
    assert (Hle := inv_single p I); fold (attempts_open p) in Hle.
    destruct (loop_alive p R) as [[H|H]|H]; try congruence; lia.
  - intros Hflag.
    destruct (inv_done p I (or_introl Hflag)) as [Hp Hs].
    unfold attempts_open; rewrite Hp; cbn.
    induction (running p) as [|s l IHl]; cbn in *; [reflexivity|].
    apply orb_false_elim in Hs; destruct Hs as [Hs1 Hs2].
    rewrite Hs1; auto.
Qed.

End SupervisorAccounts.

Lemma backoff_is_2000_per_attempt_witness :
  waited (run 9 app_js third_time_lucky (new server_options))
    = 2000 * Z.of_nat
               (pred (attempts_due
                        (run 9 app_js third_time_lucky (new server_options)))).
Proof.
  apply (backoff_is_2000_per_attempt app_js third_time_lucky server_options).
  apply reaches_run.
Defined.

Lemma every_attempt_is_logged_once_witness :
  connects (run 9 app_js third_time_lucky (new server_options))
    = (length (logger (run 9 app_js third_time_lucky (new server_options)))
       + length (filter logs
                   (running (run 9 app_js third_time_lucky (new server_options))))
       + length (filter is_promise
                   (pending (run 9 app_js third_time_lucky (new server_options)))))%nat.
Proof.
  apply (every_attempt_is_logged_once app_js third_time_lucky server_options).
  apply reaches_run.
Defined.

Lemma exactly_one_attempt_open_witness :
  attempts_open (run 7 app_js third_time_lucky (new server_options)) = 1%nat.
Proof.
  destruct (exactly_one_attempt_open app_js third_time_lucky server_options
              (run 7 app_js third_time_lucky (new server_options))
              (reaches_run app_js third_time_lucky 7 (new server_options)))
    as [Hdown _].
  apply Hdown; reflexivity.
Defined.

Section SupervisorRuns.

Variable v : SourceVariant.
Variable mongo : nat -> ConnectOutcome.
Variable opts : Options.

Lemma reaches_is_run :
  forall p q, Reaches v mongo p q -> exists k, q = run k v mongo p.
Proof.
  intros p q R; induction R as [|p q q' R [k IH] Hstep].
  - exists 0%nat; reflexivity.
  - exists (k + 1)%nat; rewrite run_add, <- IH; cbn; now rewrite Hstep.
Qed.

(** X14. With mock collections injected the service never turns to
    MongoDB: at every program point no connect call has been made, no
    promise or timer is pending, the supervisor's log is empty and no
    time was spent waiting. *)
Theorem mocks_never_contact_the_store :
  forall mocks p,
    opt_mockCollections opts = Some mocks ->
    Reaches v mongo (new opts) p ->
    connects p = 0%nat /\ pending p = [] /\ logger p = [] /\ waited p = 0.
Proof.
  intros mocks p E R.
  destruct (reaches_is_run _ _ R) as [k Hk]; subst p.
  unfold new, constructor_body; rewrite E.
  do 6 (destruct k as [|k]; [cbn; auto|]).
  cbn; auto.
Qed.

(** The fields the constructor configures stay as it left them. *)
Lemma url_kept_step :
  forall p p',
    existsb configures (running p) = false ->
    step v mongo p = Some p' ->
    existsb configures (running p') = false
    /\ mongoUrl (this p') = mongoUrl (this p)
    /\ mongoHost (this p') = mongoHost (this p).
Proof.
  intros p p' Hc Hstep; unfold step in Hstep.
  destruct (running p) as [|s rest] eqn:Er.
  - destruct (pending p) as [|[n|d] more]; inversion Hstep; subst; clear Hstep.
    + destruct (mongo n); cbn; auto.
    + cbn; auto.
  - inversion Hstep; subst; clear Hstep.
    cbn in Hc; apply orb_false_elim in Hc; destruct Hc as [Hs Hrest].
    destruct s as [[|]| | | | | | | |]; cbn in *; try discriminate; auto.
Qed.

(** X15. Once the constructor has returned, [this.mongoUrl] is
    [mongodb://<mongoHost>:27017/catalogue] for good, with the text
    [undefined] in place of a host that was not given; neither it nor
    [this.mongoHost] is written again, however many retries follow. *)
Theorem connection_url_is_fixed :
  forall p,
    Reaches v mongo (constructor v opts) p ->
    mongoUrl (this p) = url_of opts
    /\ mongoHost (this p) = opt_mongoHost opts.
Proof.
  intros p R.
  assert (H : existsb configures (running p) = false
              /\ mongoUrl (this p) = url_of opts
              /\ mongoHost (this p) = opt_mongoHost opts).
  { remember (constructor v opts) as p0 eqn:E.
    induction R as [|p0 q q' R IH Hstep]; subst.
    - unfold constructor, constructor_body, url_of.
      destruct (opt_mockCollections opts); cbn; auto.
    - destruct (IH eq_refl) as [Hc [Hu Hh]].
      destruct (url_kept_step q q' Hc Hstep) as [Hc' [Hu' Hh']].
      repeat split; congruence. }
  tauto.
Qed.

(** Refused [k] more times, the loop is where it was, [k] calls later. *)
Lemma refused_rounds :
  forall k n p,
    (forall i, exists e, mongo i = Refused e) ->
    running p = [] ->
    pending p = [ConnectPromise n] ->
    connects p = S n ->
    let q := run (5 * k) v mongo p in
    this q = this p
    /\ running q = []
    /\ pending q = [ConnectPromise (n + k)]
    /\ connects q = S (n + k)
    /\ waited q = waited p + 2000 * Z.of_nat k
    /\ length (logger q) = (length (logger p) + k)%nat.
Proof.
  induction k as [|k IH]; intros n p Hall Hr Hp Hc q; subst q.
  - change (5 * 0)%nat with 0%nat; cbn [run].
    rewrite Nat.add_0_r, Z.mul_0_r, Z.add_0_r, Nat.add_0_r; repeat split; auto.
  - destruct (Hall n) as [e He].
    replace (5 * S k)%nat with (3 + (2 + 5 * k))%nat by lia.
    rewrite run_add, (refused_logs_and_rearms v mongo p n e Hr Hp He).
    rewrite run_add, (timer_calls_connect_once v mongo _ 2000) by reflexivity.
    cbn [this logger connects waited]; rewrite Hc.
    match goal with
    | |- context [run (5 * k) v mongo ?p1] =>
        pose proof (IH (S n) p1 Hall eq_refl eq_refl eq_refl) as IH1
    end.
    cbv zeta in IH1; cbn [this logger connects waited] in IH1.
    destruct IH1 as [H1 [H2 [H3 [H4 [H5 H6]]]]].
    rewrite length_app in H6; cbn [length] in H6.
    replace (n + S k)%nat with (S n + k)%nat by lia.
    repeat split; auto; lia.
Qed.

(** X16. Against a store that refuses every connection the supervisor
    never stops and never raises the flag: at every program point the
    flag is false and a next step exists, and after [4 + 5 k] steps it
    has made [k + 1] calls, waited [2000 k] ms and logged [k] errors. *)
Theorem retries_forever_while_refused :
  opt_mockCollections opts = None ->
  (forall i, exists e, mongo i = Refused e) ->
  (forall p,
     Reaches v mongo (new opts) p ->
     mongoConnected (this p) = false /\ step v mongo p <> None)
  /\ (forall k,
        connects (run (4 + 5 * k) v mongo (new opts)) = S k
        /\ waited (run (4 + 5 * k) v mongo (new opts)) = 2000 * Z.of_nat k
        /\ length (logger (run (4 + 5 * k) v mongo (new opts))) = k).
Proof.
  intros Hmock Hall; split.
  - intros p R.
    assert (I : Inv mongo opts p) by (eapply inv_reaches; [apply inv_new | exact R]).
    assert (Hnot : ~ flag_due p).
    { intros Hd; destruct (inv_success p I Hd) as [H|[n [c [_ H]]]];
        [congruence|].
      destruct (Hall n) as [e He]; congruence. }
    assert (Hflag : mongoConnected (this p) = false).
    { destruct (mongoConnected (this p)) eqn:E; [|reflexivity].
      exfalso; apply Hnot; left; exact E. }
    split; [exact Hflag|].
    destruct (loop_alive v mongo opts p R) as [H|H]; [contradiction|].
    unfold attempts_open in H; unfold step.
    destruct (running p) as [|s rest]; [|discriminate].
    destruct (pending p) as [|[n|d] more]; [cbn in H; lia | discriminate | discriminate].
  - intros k.
    rewrite run_add.
    assert (H4 : run 4 v mongo (new opts) = constructor v opts).
    { rewrite <- (constructor_is_first_task v mongo opts).
      unfold constructor_body; rewrite Hmock; reflexivity. }
    rewrite H4.
    destruct (connectivity_flag_initial v opts Hmock) as [_ [Hr [Hp Hc]]].
    destruct (refused_rounds k 0%nat (constructor v opts) Hall Hr Hp Hc)
      as [_ [_ [_ [H1 [H2 H3]]]]].
    assert (Hlog : logger (constructor v opts) = []).
    { unfold constructor, constructor_body; rewrite Hmock; reflexivity. }
    assert (Hw : waited (constructor v opts) = 0).
    { unfold constructor, constructor_body; rewrite Hmock; reflexivity. }
    rewrite Hlog in H3; rewrite Hw in H2; cbn [length] in H3.
    repeat split; auto; lia.
Qed.

End SupervisorRuns.

Lemma mocks_never_contact_the_store_witness :
  connects (constructor app_js test_options) = 0%nat
  /\ pending (constructor app_js test_options) = []
  /\ logger (constructor app_js test_options) = []
  /\ waited (constructor app_js test_options) = 0.
Proof.
  apply (mocks_never_contact_the_store app_js never_connects test_options
           {| products := Some mockProductsCollection |}).
  - reflexivity.
  - apply reaches_constructor.
Defined.

Lemma connection_url_is_fixed_witness :
  mongoUrl (this (run 15 app_js third_time_lucky (constructor app_js server_options)))
    = url_of server_options
  /\ mongoHost (this (run 15 app_js third_time_lucky
                          (constructor app_js server_options)))
     = opt_mongoHost server_options.
Proof.
  apply (connection_url_is_fixed app_js third_time_lucky server_options).
  apply reaches_run.
Defined.

Lemma retries_forever_while_refused_witness :
  connects (run (4 + 5 * 3) app_js never_connects (new server_options)) = 4%nat
  /\ waited (run (4 + 5 * 3) app_js never_connects (new server_options))
     = 2000 * Z.of_nat 3
  /\ length (logger (run (4 + 5 * 3) app_js never_connects (new server_options)))
     = 3%nat.
Proof.
  destruct (retries_forever_while_refused app_js never_connects server_options)
    as [_ Hk].
  - reflexivity.
  - intros i; exists connection_lost; reflexivity.
  - apply (Hk 3%nat).
Defined.

(** * The supervisor and the handlers together *)

(** X17. Started without mocks, as long as no connect call made so far
    has succeeded (every call the store accepts is still in flight),
    the service answers every route but [/health] with 500 "database not
    available" without touching the store, and [/health] with
    [mongo: false]; this includes the start-up window against a store
    that is about to accept the first call. *)
Theorem no_data_before_first_success :
  forall (v : SourceVariant) (mongo : nat -> ConnectOutcome) (opts : Options)
         (p : Process),
    opt_mockCollections opts = None ->
    Reaches v mongo (new opts) p ->
    (forall n c, (n < connects p)%nat -> mongo n = Connected c ->
                 In (ConnectPromise n) (pending p)) ->
    forall (v' : SourceVariant) (r : Route),
      response (serve v' (this p) Health)
        = Some {| status := 200; body := JsonHealth "OK" false |}
      /\ (r <> Health ->
          response (serve v' (this p) r)
            = Some {| status := 500; body := Text "database not available" |}
          /\ queries (serve v' (this p) r) = []).
Proof.
  intros v mongo opts p Hmock R Hall v' r.
  assert (I : Inv mongo opts p) by (eapply inv_reaches; [apply inv_new | exact R]).
  assert (Hflag : mongoConnected (this p) = false).
  { destruct (mongoConnected (this p)) eqn:E; [|reflexivity].
    destruct (inv_success p I (or_introl E)) as [H|[n [c [Hn H]]]];
      [congruence|].
    destruct (inv_done p I (or_introl E)) as [Hp _].
    specialize (Hall n c Hn H); rewrite Hp in Hall; destruct Hall. }
  destruct (this p) as [flag host url dbn coll]; cbn in Hflag; subst flag.
  split; [destruct v'; reflexivity|].
  intros Hr; destruct r; try congruence; destruct v'; split; reflexivity.
Qed.

Lemma no_data_before_first_success_witness :
  response (serve app_js (this (constructor app_js server_options)) Health)
    = Some {| status := 200; body := JsonHealth "OK" false |}
  /\ (Products <> Health ->
      response (serve app_js (this (constructor app_js server_options)) Products)
        = Some {| status := 500; body := Text "database not available" |}
      /\ queries (serve app_js (this (constructor app_js server_options)) Products)
         = []).
Proof.
  apply (no_data_before_first_success app_js accepts_at_once server_options
           (constructor app_js server_options)).
  - reflexivity.
  - apply reaches_constructor.
  - intros n c Hn _.
    destruct n as [|n]; [left; reflexivity | cbn in Hn; lia].
Defined.

(** X18. Started without mocks against a store that refuses [k]
    connections and accepts the next, the service is ready after
    [4 + 5 k + 5] steps: the loop has stopped, [k + 1] calls were made,
    [2000 k] ms were spent waiting, [/health] reports [mongo: true], and
    every route runs its queries on the collection that the successful
    call returned. *)
Theorem service_ready_after_retries :
  forall (v : SourceVariant) (mongo : nat -> ConnectOutcome) (opts : Options)
         (c : Collection) (k : nat),
    opt_mockCollections opts = None ->
    (forall i, (i < k)%nat -> exists e, mongo i = Refused e) ->
    mongo k = Connected c ->
    let q := run (4 + (5 * k + 5)) v mongo (new opts) in
    step v mongo q = None
    /\ connects q = S k
    /\ waited q = 2000 * Z.of_nat k
    /\ collection (this q) = Some c
    /\ forall (v' : SourceVariant) (r : Route),
         response (serve v' (this q) Health)
           = Some {| status := 200; body := JsonHealth "OK" true |}
         /\ queries (serve v' (this q) r) = route_queries r.
Proof.
  intros v mongo opts c k Hmock Hfail Hok q.
  destruct (supervisor_converges v mongo opts c k Hmock Hfail Hok)
    as [Hflag [Hcoll [_ [_ [Hstep [Hconn [Hwait _]]]]]]].
  fold q in Hflag, Hcoll, Hstep, Hconn, Hwait.
  repeat split; auto.
  - destruct (this q) as [flag host url dbn coll]; cbn in Hflag; subst flag.
    destruct v'; reflexivity.
  - now apply bound_collection_is_queried with c.
Qed.

Lemma service_ready_after_retries_witness :
  let q := run (4 + (5 * 2 + 5)) app_js third_time_lucky (new server_options) in
  step app_js third_time_lucky q = None
  /\ connects q = 3%nat
  /\ waited q = 2000 * Z.of_nat 2
  /\ collection (this q) = Some (memCollection no_text_index fixture)
  /\ forall (v' : SourceVariant) (r : Route),
       response (serve v' (this q) Health)
         = Some {| status := 200; body := JsonHealth "OK" true |}
       /\ queries (serve v' (this q) r) = route_queries r.
Proof.
  apply (service_ready_after_retries app_js third_time_lucky server_options
           (memCollection no_text_index fixture) 2%nat).
  - reflexivity.
  - intros i Hi; exists connection_lost.
    destruct i as [|[|i]]; [reflexivity | reflexivity | lia].
  - reflexivity.
Defined.

(** * The test suite's mock *)


